(** * Reactive configuration store and renderer bootstrap

    A shallow embedding of
      - [packages/core/src/configuration/config.ts] (class [Configuration]),
      - the renderer entry module ([RendererMain], [createRenderer]),
    together with the properties their specification states about them. *)

From Stdlib Require Import Ascii String.
From stdpp Require Import gmap strings list.

Local Open Scope string_scope.
Local Open Scope list_scope.

(** ** JavaScript values *)

Module Js.

(** The plain-data fragment of JavaScript values.  An object is the list of
    its own enumerable properties, in the order [Object.keys] yields them.
    Members inherited from a prototype are outside the model. *)
#[warnings="-register-all"]
Inductive Value : Type :=
| VUndefined
| VNull
| VBool (b : bool)
| VNum (n : Z)
| VObj (props : list (string * Value)).

Abbreviation Obj := (list (string * Value)).

(** [v !== undefined] *)
Definition defined (v : Value) : bool :=
  match v with VUndefined => false | _ => true end.

(** [v == null] *)
Definition nullish (v : Value) : bool :=
  match v with VUndefined | VNull => true | _ => false end.

(** JavaScript truthiness, on this fragment. *)
Definition truthy (v : Value) : bool :=
  match v with
  | VUndefined | VNull => false
  | VBool b => b
  | VNum n => negb (n =? 0)%Z
  | VObj _ => true
  end.

(** Own property lookup, for any kind of property value. *)
Fixpoint own {A} (o : list (string * A)) (k : string) : option A :=
  match o with
  | [] => None
  | (k', v) :: o' => if String.eqb k' k then Some v else own o' k
  end.

(** [k in o] *)
Definition has_own {A} (o : list (string * A)) (k : string) : bool :=
  match own o k with Some _ => true | None => false end.

(** [o[k]] *)
Definition prop_get (o : Obj) (k : string) : Value :=
  match own o k with Some v => v | None => VUndefined end.

(** [o[k] = v]: an existing property keeps its place, a new one is added last. *)
Fixpoint prop_set {A} (o : list (string * A)) (k : string) (v : A)
  : list (string * A) :=
  match o with
  | [] => [(k, v)]
  | (k', v') :: o' =>
      if String.eqb k' k then (k', v) :: o' else (k', v') :: prop_set o' k v
  end.

(** [Object.keys(x)] *)
Definition keys (x : Value) : list string :=
  match x with
  | VObj o => map fst o
  | _ => []
  end.

(** [x[k]] for a non-nullish [x]; primitives have no own properties here. *)
Definition member (x : Value) (k : string) : Value :=
  match x with
  | VObj o => prop_get o k
  | _ => VUndefined
  end.

(** [x ?? d] for an optional field holding a value. *)
Definition coalesce (x : option Value) (d : Value) : Value :=
  match x with
  | Some v => if nullish v then d else v
  | None => d
  end.

(** lodash's [isPlainObject]. *)
Definition isPlainObject (v : Value) : bool :=
  match v with VObj _ => true | _ => false end.

End Js.

Import Js.

(** ** Results and precondition checks *)

Module Shared.

(** A call returns, or throws. *)
Inductive Result (A : Type) : Type :=
| Ok (a : A)
| Throw (error : string).
Arguments Ok {A} a.
Arguments Throw {A} error.

#[export] Instance Result_ret : MRet Result := fun A a => Ok a.
#[export] Instance Result_bind : MBind Result := fun A B f r =>
  match r with
  | Ok a => f a
  | Throw e => Throw e
  end.

(** Modelled from the spec: the helper [invariant(check, message, thing)] of
    [@alilc/lowcode-shared] lives in another package; a failed precondition
    check fails immediately and synchronously. *)
Definition invariant (check : bool) (message : string) : Result unit :=
  if check then Ok tt else Throw message.

(** A field that may hold a function or some other value. *)
Inductive Supplied (F : Type) : Type :=
| IsFunction (f : F)
| NotFunction (v : Value).
Arguments IsFunction {F} f.
Arguments NotFunction {F} v.

Definition supplied_truthy {F} (s : Supplied F) : bool :=
  match s with IsFunction _ => true | NotFunction v => truthy v end.

(** [typeof s === 'function'] *)
Definition is_function {F} (s : Supplied F) : bool :=
  match s with IsFunction _ => true | NotFunction _ => false end.

End Shared.

Import Shared.

(** ** lodash [get] *)

Module Lodash.

(** lodash turns a string path into property names with two regular-expression
    helpers: the test [reIsDeepProp] and the tokenizer [stringToPath].  They
    are the interface the store depends on. *)
Class PathSyntax := {
  reIsDeepProp : string -> bool;
  stringToPath : string -> list string;
}.

Section Get.
Context `{PathSyntax}.

(** [isKey(value, object)] for a string [value]:
    [reIsPlainProp.test(value) || !reIsDeepProp.test(value) ||
     (object != null && value in Object(object))];
    a string of word characters only is never deep, so the first test is
    covered by the second. *)
Definition isKey (value : string) (object : Value) : bool :=
  negb (reIsDeepProp value) ||
  match object with VObj o => has_own o value | _ => false end.

Definition castPath (value : string) (object : Value) : list string :=
  if isKey value object then [value] else stringToPath value.

(** The loop of [baseGet]: [while (object != null && index < length)]. A
    walk that stops early yields [undefined]. *)
Fixpoint baseGet_loop (object : Value) (path : list string) : Value :=
  match path with
  | [] => object
  | k :: rest =>
      if nullish object then VUndefined
      else baseGet_loop (member object k) rest
  end.

(** [return (index && index == length) ? object : undefined] *)
Definition baseGet (object : Value) (path : string) : Value :=
  match castPath path object with
  | [] => VUndefined
  | p => baseGet_loop object p
  end.

Definition get (object : Value) (path : string) (defaultValue : Value) : Value :=
  let result := if nullish object then VUndefined else baseGet object path in
  if defined result then result else defaultValue.

End Get.

(** The path syntax on keys without square brackets: a key is deep when it
    has a dot, and its path is its dot-separated pieces. *)
Fixpoint has_dot (s : string) : bool :=
  match s with
  | EmptyString => false
  | String c s' => Ascii.eqb c "."%char || has_dot s'
  end.

Fixpoint split_dots (cur : string) (s : string) : list string :=
  match s with
  | EmptyString => [cur]
  | String c s' =>
      if Ascii.eqb c "."%char then cur :: split_dots "" s'
      else split_dots (cur ++ String c "")%string s'
  end.

Definition dotted : PathSyntax := {|
  reIsDeepProp := has_dot;
  stringToPath := split_dots "";
|}.

End Lodash.

(** ** The configuration store: [configuration/config.ts] *)

Module Config.

(** A function held by the store is known by identity only ([===]): either a
    callback handed in by a caller, or the [resolve] function of a promise the
    store created in [onceGot].  Calling one is recorded as an event; what the
    callee does is its own business, and it is taken not to call back into the
    store while it runs.  The setter validator is taken to be a pure function
    of the key and the value. *)
Inductive Fn : Type :=
| UserFn (id : nat)
| PromiseResolve (p : nat).

#[export] Instance Fn_eq_dec : EqDecision Fn.
Proof. solve_decision. Defined.

(** An entry of [#waits]; an absent [once] is [false]. *)
Record WaitEntry := { once : bool; resolve : Fn }.

(** What a setter validator returns: [boolean | string]. *)
Inductive Valid : Type :=
| ValidBool (b : bool)
| ValidString (s : string).

(** What the store does to the outside: it calls a function with a value, or
    it logs a warning ([logger.warn] with the key and its second argument). *)
Inductive Event : Type :=
| Call (f : Fn) (data : Value)
| Warn (key : string) (reason : string).

(** The private fields of a [Configuration]. *)
Record Configuration := {
  strictMode : bool;
  setterValidator : string -> Value -> Valid;
  config : Obj;
  waits : gmap string (list WaitEntry);
}.

(** The store, the events so far (oldest first) and the number of promises
    created. *)
Record World := {
  self : Configuration;
  trace : list Event;
  promises : nat;
}.

(** A promise returned by [onceGot]. *)
Inductive Promise : Type :=
| Resolved (v : Value)
| Pending (p : nat).

(** *** Computations: state, and exceptions *)

Definition M (A : Type) : Type := World -> Result (A * World).

#[export] Instance M_ret : MRet M := fun A a w => Ok (a, w).
#[export] Instance M_bind : MBind M := fun A B f m w =>
  match m w with
  | Ok (a, w') => f a w'
  | Throw e => Throw e
  end.

Definition throw {A} (e : string) : M A := fun _ => Throw e.
Definition this : M Configuration := fun w => Ok (self w, w).
Definition update (f : Configuration -> Configuration) : M unit := fun w =>
  Ok (tt, {| self := f (self w); trace := trace w; promises := promises w |}).
Definition emit (e : Event) : M unit := fun w =>
  Ok (tt, {| self := self w; trace := trace w ++ [e]; promises := promises w |}).
Definition newPromise : M nat := fun w =>
  Ok (promises w, {| self := self w; trace := trace w; promises := S (promises w) |}).

Definition with_config (o : Obj) (c : Configuration) : Configuration :=
  {| strictMode := strictMode c; setterValidator := setterValidator c;
     config := o; waits := waits c |}.
Definition with_waits (m : gmap string (list WaitEntry)) (c : Configuration)
  : Configuration :=
  {| strictMode := strictMode c; setterValidator := setterValidator c;
     config := config c; waits := m |}.

Record ConfigurationOptions := {
  opt_strictMode : option bool;
  opt_setterValidator : option (Supplied (string -> Value -> Valid));
}.

Definition STRICT_PLUGIN_MODE_DEFAULT : bool := true.

(** [new Configuration(config, options)].  The signature asks for a [Config]
    object; [None] is a call that leaves it out. *)
Definition new (config : option Obj) (options : option ConfigurationOptions)
  : Result Configuration :=
  invariant (bool_decide (is_Some config)) "config must exist";;
  match config with
  | None => Throw "unreachable"
  | Some cfg =>
      let strictMode_ := options ≫= opt_strictMode in
      let setterValidator_ := options ≫= opt_setterValidator in
      let strict :=
        match strictMode_ with
        | Some false => false
        | _ => STRICT_PLUGIN_MODE_DEFAULT
        end in
      validator ←
        match setterValidator_ with
        | Some s =>
            if supplied_truthy s then
              invariant (is_function s) "setterValidator must be a function";;
              match s with
              | IsFunction f => Ok f
              | NotFunction _ => Throw "unreachable"
              end
            else Ok (fun _ _ => ValidBool true)
        | None => Ok (fun _ _ => ValidBool true)
        end;
      Ok {| strictMode := strict; setterValidator := validator;
            config := cfg; waits := ∅ |}
  end.

Section Methods.
Context `{Lodash.PathSyntax}.

Definition has (c : Configuration) (key : string) : bool :=
  defined (prop_get (config c) key).

Definition get (c : Configuration) (key : string) (defaultValue : Value) : Value :=
  Lodash.get (VObj (config c)) key defaultValue.

(** Calling a held function. *)
Definition invoke (f : Fn) (data : Value) : M unit := emit (Call f data).

(** The loop of [notifyGot], over the reversed copy:
    [let i = waits.length; while (i--) { waits[i].resolve(this.get(key));
     if (waits[i].once) waits.splice(i, 1); }] *)
Fixpoint notify_loop (i : nat) (waits : list WaitEntry) (key : string)
  : M (list WaitEntry) :=
  match i with
  | 0 => mret waits
  | S i' =>
      match waits !! i' with
      | None => throw "TypeError: waits[i] is undefined"
      | Some w =>
          c ← this;
          invoke (resolve w) (get c key VUndefined);;
          notify_loop i' (if once w then delete i' waits else waits) key
      end
  end.

Definition notifyGot (key : string) : M unit :=
  c ← this;
  match waits c !! key with
  | None => mret tt
  | Some ws =>
      let ws := reverse ws in
      ws' ← notify_loop (length ws) ws key;
      if (0 <? length ws')%nat
      then update (fun c => with_waits (<[key := ws']> (waits c)) c)
      else update (fun c => with_waits (delete key (waits c)) c)
  end.

Definition setWait (key : string) (resolve : Fn) (once : bool) : M unit :=
  c ← this;
  match waits c !! key with
  | Some ws =>
      update (with_waits (<[key := (ws ++ [{| once := once; resolve := resolve |}])%list]>
                            (waits c)))
  | None =>
      update (with_waits (<[key := [{| once := once; resolve := resolve |}]]>
                            (waits c)))
  end.

(** The loop of [delWait]:
    [while (i--) { if (waits[i].resolve === fn) waits.splice(i, 1); }] *)
Fixpoint delWait_loop (i : nat) (waits : list WaitEntry) (fn : Fn)
  : M (list WaitEntry) :=
  match i with
  | 0 => mret waits
  | S i' =>
      match waits !! i' with
      | None => throw "TypeError: waits[i] is undefined"
      | Some w =>
          delWait_loop i'
            (if decide (resolve w = fn) then delete i' waits else waits) fn
      end
  end.

Definition delWait (key : string) (fn : Fn) : M unit :=
  c ← this;
  match waits c !! key with
  | None => mret tt
  | Some ws =>
      ws' ← delWait_loop (length ws) ws fn;
      if (length ws' <? 1)%nat
      then update (fun c => with_waits (delete key (waits c)) c)
      else update (fun c => with_waits (<[key := ws']> (waits c)) c)
  end.

(** [valid === false || typeof valid === 'string'] *)
Definition rejected (valid : Valid) : bool :=
  match valid with
  | ValidBool b => negb b
  | ValidString _ => true
  end.

(** [valid ? valid : ''] *)
Definition reason (valid : Valid) : string :=
  match valid with
  | ValidString s => s
  | ValidBool _ => ""
  end.

Definition set (key : string) (value : Value) : M unit :=
  c ← this;
  let write : M unit :=
    update (fun c => with_config (prop_set (config c) key value) c);;
    notifyGot key in
  if strictMode c then
    let valid := setterValidator c key value in
    if rejected valid then emit (Warn key (reason valid))
    else write
  else write.

Fixpoint forEach {A} (l : list A) (f : A -> M unit) : M unit :=
  match l with
  | [] => mret tt
  | x :: l' => f x;; forEach l' f
  end.

Definition setConfig (config : Value) : M unit :=
  if isPlainObject config
  then forEach (keys config) (fun key => set key (member config key))
  else mret tt.

Definition onceGot (key : string) : M Promise :=
  c ← this;
  let val := prop_get (config c) key in
  if defined val then mret (Resolved val)
  else
    p ← newPromise;
    setWait key (PromiseResolve p) true;;
    mret (Pending p).

(** The function returned is [() => { this.delWait(key, fn) }]. *)
Definition onGot (key : string) (fn : nat) : M (M unit) :=
  c ← this;
  let val := prop_get (config c) key in
  (if defined val then invoke (UserFn fn) val else mret tt);;
  setWait key (UserFn fn) false;;
  mret (delWait key (UserFn fn)).

End Methods.

(** *** What callers observe *)

Section Observations.
Context `{Lodash.PathSyntax}.

(** Calling the waiters [ws] with [data], in that order. *)
Definition fired (data : Value) (ws : list WaitEntry) : list Event :=
  map (fun e => Call (resolve e) data) ws.

(** What stays the same across a method call. *)
Definition settings_kept (w w' : World) : Prop :=
  strictMode (self w') = strictMode (self w) /\
  setterValidator (self w') = setterValidator (self w).

(** The waiters that are not [once]. *)
Definition persistent (ws : list WaitEntry) : list WaitEntry :=
  filter (fun e => once e = false) ws.

(** The registrations of a function among waiters. *)
Definition registrations (fn : Fn) (ws : list WaitEntry) : list WaitEntry :=
  filter (fun e => resolve e = fn) ws.

(** The waiters other than those of a function. *)
Definition others (fn : Fn) (ws : list WaitEntry) : list WaitEntry :=
  filter (fun e => resolve e <> fn) ws.

(** The waiters stored for a key; none when the key has no entry. *)
Definition waiting (c : Configuration) (key : string) : list WaitEntry :=
  default [] (waits c !! key).

(** The values a function was called with, oldest first. *)
Fixpoint calls (fn : Fn) (tr : list Event) : list Value :=
  match tr with
  | [] => []
  | Call f v :: tr' => if decide (f = fn) then v :: calls fn tr' else calls fn tr'
  | Warn _ _ :: tr' => calls fn tr'
  end.

(** Whether [set(key, value)] gets past the validator. *)
Definition accepts (c : Configuration) (key : string) (value : Value) : bool :=
  negb (strictMode c) || negb (rejected (setterValidator c key value)).

(** What a caller can do with a store. *)
Inductive Op : Type :=
| OSet (key : string) (value : Value)
| OSetConfig (config : Value)
| OOnceGot (key : string)
| OOnGot (key : string) (fn : nat)
| OUnsubscribe (key : string) (fn : nat).

Definition perform (op : Op) : M unit :=
  match op with
  | OSet key value => set key value
  | OSetConfig config => setConfig config
  | OOnceGot key => onceGot key;; mret tt
  | OOnGot key fn => onGot key fn;; mret tt
  | OUnsubscribe key fn => delWait key (UserFn fn)
  end.

(** The value a caller's action stores under [key], if it stores one. *)
Definition writes (c : Configuration) (key : string) (op : Op) : option Value :=
  match op with
  | OSet k v => if String.eqb k key && accepts c k v then Some v else None
  | OSetConfig (VObj o) =>
      if has_own o key && accepts c key (prop_get o key)
      then Some (prop_get o key) else None
  | _ => None
  end.

Definition performs (ops : list Op) : M unit := forEach ops perform.

(** The bookkeeping of one function [fn]: registered under [key] as [rs]
    and under no other key, and called so far with the values [cs]. *)
Definition tracked (fn : Fn) (key : string) (rs : list WaitEntry)
    (cs : list Value) (w : World) : Prop :=
  registrations fn (waiting (self w) key) = rs /\
  (forall k', k' <> key -> registrations fn (waiting (self w) k') = []) /\
  calls fn (trace w) = cs.

(** Whether an action registers [fn] as a new waiter. *)
Definition registers (w : World) (op : Op) (fn : Fn) : Prop :=
  match op with
  | OOnceGot k =>
      defined (prop_get (config (self w)) k) = false /\
      fn = PromiseResolve (promises w)
  | OOnGot _ f => fn = UserFn f
  | _ => False
  end.

(** Whether an action creates a promise. *)
Definition allocates (w : World) (op : Op) : bool :=
  match op with
  | OOnceGot k => negb (defined (prop_get (config (self w)) k))
  | _ => false
  end.

(** The waiter [onceGot] registers for the promise [p]. *)
Definition promise_entry (p : nat) : WaitEntry :=
  {| once := true; resolve := PromiseResolve p |}.

(** Where the promise [p] of an [onceGot(key)] stands. *)
Inductive Status : Type :=
| StillPending
| ResolvedWith (v : Value).

Definition status (p : nat) (key : string) (st : Status) (w : World) : Prop :=
  p < promises w /\
  match st with
  | StillPending => tracked (PromiseResolve p) key [promise_entry p] [] w
  | ResolvedWith v => tracked (PromiseResolve p) key [] [v] w
  end.

(** The status after one action of a caller. *)
Definition next (c : Configuration) (key : string) (op : Op) (st : Status)
  : Status :=
  match st with
  | StillPending =>
      match writes c key op with
      | Some v => ResolvedWith v
      | None => StillPending
      end
  | ResolvedWith v => ResolvedWith v
  end.

(** No promise the store has yet to create is registered or was called.
    This holds of a new store and every action of a caller keeps it. *)
Definition fresh (w : World) : Prop :=
  forall p key, promises w <= p -> tracked (PromiseResolve p) key [] [] w.

(** Registering waiters for a key one after the other, the first of the list
    first: [setWait(key, resolve, once)] for each. *)
Definition register_all (key : string) (regs : list WaitEntry) : M unit :=
  forEach regs (fun e => setWait key (resolve e) (once e)).

(** No key of [#waits] holds an empty list. *)
Definition tidy (c : Configuration) : Prop :=
  forall k, waits c !! k <> Some [].

(** Whether the options carry a validator that is supplied (truthy) and is
    no function. *)
Definition bad_validator (options : option ConfigurationOptions) : bool :=
  match options ≫= opt_setterValidator with
  | Some s => supplied_truthy s && negb (is_function s)
  | None => false
  end.

(** Whether the options carry a validator function. *)
Definition validator_of (options : option ConfigurationOptions)
  : option (string -> Value -> Valid) :=
  match options ≫= opt_setterValidator with
  | Some (IsFunction f) => Some f
  | _ => None
  end.

(** How a later world relates to an earlier one of the same store. *)
Definition follows (w w' : World) : Prop :=
  settings_kept w w' /\
  trace w `prefix_of` trace w' /\
  promises w <= promises w' /\
  (tidy (self w) -> tidy (self w')).

(** A store at the start of its life. *)
Definition born (c : Configuration) : World :=
  {| self := c; trace := []; promises := 0 |}.

End Observations.

End Config.

(** ** The renderer entry module: [RendererMain] and [createRenderer] *)

Module Renderer.

(** Modelled from the spec: the lifecycle service ([./services/lifeCycleService])
    is a module of its own, not embedded here.  Its phases are ordered
    Uninitialized, OptionsResolved, Ready, AfterInitPackageLoad. *)
Inductive LifecyclePhase : Type :=
| Uninitialized
| OptionsResolved
| Ready
| AfterInitPackageLoad.

Definition rank (p : LifecyclePhase) : nat :=
  match p with
  | Uninitialized => 0
  | OptionsResolved => 1
  | Ready => 2
  | AfterInitPackageLoad => 3
  end.

(** The injected services, as handles. *)
Inductive Service : Type :=
| CodeRuntimeService
| PackageManagementService
| SchemaService
| ExtensionHostService
| ComponentTreeModelService
| BoostsService
| LifeCycleService.

Inductive Mode : Type := Development | Production.

Abbreviation Plugin := Value.
Abbreviation Package := Value.

Record AppOptions := {
  schema : Value;
  opt_mode : option Mode;
  plugins : option (list Plugin);
  codeRuntime : option Value;
  packages : option (list Package);
}.

Abbreviation RenderContext := (list (string * Service)).

(** A render adapter, by the render object its call eventually yields. *)
Abbreviation RenderAdapter := (RenderContext -> Value).

(** The argument of [registerPlugin]: an array of plugins, or one plugin. *)
Inductive PluginArg : Type :=
| Many (ps : list Plugin)
| One (p : Plugin).

(** Calls to collaborators that answer with a promise.  The promises are
    taken to be fulfilled; a rejection ends the bootstrap and is not followed
    here. *)
Inductive ExtCall : Type :=
| Adapter (ctx : RenderContext)
| RegisterPlugin (arg : PluginArg)
| LoadPackages (ps : list Package).

Inductive Event : Type :=
| SchemaInitialize (schema : Value)
| CodeRuntimeInitialize (options : Value)
| PhaseSet (p : LifecyclePhase)
| RenderObjectStored (r : Value)
| Start (c : ExtCall)
| Settle (c : ExtCall)
| Unhandled (error : string).

(** Values held by the application object. *)
Inductive AppValue : Type :=
| AOptions (o : option AppOptions)
| AMode (m : Mode)
| AService (s : Service)
| AFunction (f : Plugin -> ExtCall)
| AData (v : Value).

Record JsObject := { props : list (string * AppValue); frozen : bool }.

(** [Object.freeze(o)] *)
Definition freeze (o : list (string * AppValue)) : JsObject :=
  {| props := o; frozen := true |}.

(** The object after the statement [o[k] = v]: a frozen object refuses the
    write (and strict-mode code gets a TypeError besides). *)
Definition assign (o : JsObject) (k : string) (v : AppValue) : JsObject :=
  if frozen o then o else {| props := prop_set (props o) k v; frozen := false |}.

(** An object literal: properties are defined left to right. *)
Definition literal (l : list (string * AppValue)) : list (string * AppValue) :=
  foldl (fun o kv => prop_set o kv.1 kv.2) [] l.

(** [...x] inside an object literal: each own key of [x], with [x[key]]. *)
Definition spread (x : Value) : list (string * AppValue) :=
  map (fun key => (key, AData (member x key))) (keys x).

(** The field [k] of a render object, if it has one. *)
Definition render_field (x : Value) (k : string) : option Value :=
  match x with
  | VObj o => own o k
  | _ => None
  end.

(** The points at which an [async] function resumes after an [await]. *)
Inductive Cont : Type :=
| CtorThen                          (* the callback given to [.then] in the constructor *)
| CtorAdapterDone                   (* after [await this.adapter(renderContext)] *)
| MainReady (plugins : list Plugin) (* after [await when(Ready)] *)
| MainRegistered                    (* after [await registerPlugin(plugins)] *)
| MainLoaded                        (* after [await loadPackages(..)] *)
| GetAppLoaded                      (* after [await when(AfterInitPackageLoad)] *)
| BootstrapMainDone.                (* after [await rendererMain.main(..)] *)

(** The fields of a [RendererMain]. *)
Record RendererMain := {
  mode : Mode;
  initOptions : option AppOptions;
  renderObject : Value;
  adapter : option RenderAdapter;
}.

(** The instance, the lifecycle service, the job queue of the cooperative
    scheduler, the collaborators' promises still pending, and what has
    happened so far. *)
Record State := {
  main_ : RendererMain;
  phase : LifecyclePhase;
  phaseWaiters : list (LifecyclePhase * Cont);
  jobs : list (Cont * Value);
  pending : list (ExtCall * Cont);
  mainAwaited : bool;
  mainDone : bool;
  trace : list Event;
  apps : list JsObject;
}.

Definition set_main (f : RendererMain -> RendererMain) (st : State) : State :=
  {| main_ := f (main_ st); phase := phase st; phaseWaiters := phaseWaiters st;
     jobs := jobs st; pending := pending st; mainAwaited := mainAwaited st;
     mainDone := mainDone st; trace := trace st; apps := apps st |}.

Definition emit (e : Event) (st : State) : State :=
  {| main_ := main_ st; phase := phase st; phaseWaiters := phaseWaiters st;
     jobs := jobs st; pending := pending st; mainAwaited := mainAwaited st;
     mainDone := mainDone st; trace := (trace st ++ [e])%list; apps := apps st |}.

Definition enqueue (js : list (Cont * Value)) (st : State) : State :=
  {| main_ := main_ st; phase := phase st; phaseWaiters := phaseWaiters st;
     jobs := (jobs st ++ js)%list; pending := pending st;
     mainAwaited := mainAwaited st; mainDone := mainDone st;
     trace := trace st; apps := apps st |}.

(** Starting a collaborator's call and awaiting its promise. *)
Definition start (c : ExtCall) (k : Cont) (st : State) : State :=
  let st := emit (Start c) st in
  {| main_ := main_ st; phase := phase st; phaseWaiters := phaseWaiters st;
     jobs := jobs st; pending := (pending st ++ [(c, k)])%list;
     mainAwaited := mainAwaited st; mainDone := mainDone st;
     trace := trace st; apps := apps st |}.

(** Modelled from the spec: [when(targetPhase)] of the lifecycle service
    resolves at once if the current phase is already at or past the target;
    otherwise it registers a waiter.  Here the continuation [k] awaits it. *)
Definition when (target : LifecyclePhase) (k : Cont) (st : State) : State :=
  if (rank target <=? rank (phase st))%nat then enqueue [(k, VUndefined)] st
  else
    {| main_ := main_ st; phase := phase st;
       phaseWaiters := (phaseWaiters st ++ [(target, k)])%list;
       jobs := jobs st; pending := pending st; mainAwaited := mainAwaited st;
       mainDone := mainDone st; trace := trace st; apps := apps st |}.

(** Modelled from the spec: the setter of [phase] releases, in registration
    order, the waiters whose target the new phase reaches or passes. *)
Definition set_phase (p : LifecyclePhase) (st : State) : State :=
  let reached := fun w : LifecyclePhase * Cont => (rank w.1 <=? rank p)%nat in
  let st := emit (PhaseSet p) st in
  enqueue (map (fun w => (w.2, VUndefined)) (filter (fun w => reached w = true) (phaseWaiters st)))
    {| main_ := main_ st; phase := p;
       phaseWaiters := filter (fun w => reached w = false) (phaseWaiters st);
       jobs := jobs st; pending := pending st; mainAwaited := mainAwaited st;
       mainDone := mainDone st; trace := trace st; apps := apps st |}.

Definition renderContext : RenderContext :=
  [("schema", SchemaService); ("packageManager", PackageManagementService);
   ("boostsManager", BoostsService);
   ("componentTreeModel", ComponentTreeModelService);
   ("lifeCycle", LifeCycleService)].

(** [new RendererMain(...)]: the constructor registers its continuation. *)
Definition constructor : State :=
  when OptionsResolved CtorThen
    {| main_ := {| mode := Production; initOptions := None;
                   renderObject := VUndefined; adapter := None |};
       phase := Uninitialized; phaseWaiters := []; jobs := []; pending := [];
       mainAwaited := false; mainDone := false; trace := []; apps := [] |}.

(** [main(options, adapter)], up to its first [await]. *)
Definition main (options : AppOptions) (adapter_ : RenderAdapter) (st : State) : State :=
  let plugins_ := default [] (plugins options) in
  let st :=
    match opt_mode options with
    | Some m => set_main (fun r => {| mode := m; initOptions := initOptions r;
                  renderObject := renderObject r; adapter := adapter r |}) st
    | None => st
    end in
  let st := set_main (fun r => {| mode := mode r; initOptions := Some options;
                  renderObject := renderObject r; adapter := adapter r |}) st in
  let st := set_main (fun r => {| mode := mode r; initOptions := initOptions r;
                  renderObject := renderObject r; adapter := Some adapter_ |}) st in
  let st := emit (SchemaInitialize (schema options)) st in
  let st := emit (CodeRuntimeInitialize (coalesce (codeRuntime options) (VObj []))) st in
  let st := set_phase OptionsResolved st in
  when Ready (MainReady plugins_) st.

(** The object [getApp] builds and freezes. *)
Definition application (r : RendererMain) : JsObject :=
  freeze (literal (
    [("__options", AOptions (initOptions r));
     ("mode", AMode (mode r));
     ("schema", AService SchemaService);
     ("packageManager", AService PackageManagementService)]
    ++ spread (renderObject r)
    ++ [("use", AFunction (fun plugin => RegisterPlugin (One plugin)))])%list).

(** [getApp()], up to its [await]. *)
Definition getApp (st : State) : State :=
  when AfterInitPackageLoad GetAppLoaded st.

Definition finish_main (st : State) : State :=
  let st :=
    {| main_ := main_ st; phase := phase st; phaseWaiters := phaseWaiters st;
       jobs := jobs st; pending := pending st; mainAwaited := mainAwaited st;
       mainDone := true; trace := trace st; apps := apps st |} in
  if mainAwaited st then enqueue [(BootstrapMainDone, VUndefined)] st else st.

(** Running an [async] function from one [await] to the next. *)
Definition resume (k : Cont) (v : Value) (st : State) : State :=
  match k with
  | CtorThen =>
      match adapter (main_ st) with
      | Some f => start (Adapter renderContext) CtorAdapterDone st
      | None => emit (Unhandled "TypeError: this.adapter is not a function") st
      end
  | CtorAdapterDone =>
      let st := set_main (fun r => {| mode := mode r; initOptions := initOptions r;
                    renderObject := v; adapter := adapter r |}) st in
      let st := emit (RenderObjectStored v) st in
      set_phase Ready st
  | MainReady plugins_ =>
      start (RegisterPlugin (Many plugins_)) MainRegistered st
  | MainRegistered =>
      start (LoadPackages
               (default [] (initOptions (main_ st) ≫= packages))) MainLoaded st
  | MainLoaded =>
      finish_main (set_phase AfterInitPackageLoad st)
  | GetAppLoaded =>
      {| main_ := main_ st; phase := phase st; phaseWaiters := phaseWaiters st;
         jobs := jobs st; pending := pending st; mainAwaited := mainAwaited st;
         mainDone := mainDone st; trace := trace st;
         apps := (apps st ++ [application (main_ st)])%list |}
  | BootstrapMainDone => getApp st
  end.

(** What a collaborator's promise is fulfilled with. *)
Definition outcome (c : ExtCall) (st : State) : Value :=
  match c, adapter (main_ st) with
  | Adapter ctx, Some f => f ctx
  | _, _ => VUndefined
  end.

(** One turn of the scheduler: the oldest queued job runs; with no job
    queued, the oldest pending promise of a collaborator is fulfilled. *)
Definition step (st : State) : option State :=
  match jobs st with
  | (k, v) :: js =>
      Some (resume k v
        {| main_ := main_ st; phase := phase st; phaseWaiters := phaseWaiters st;
           jobs := js; pending := pending st; mainAwaited := mainAwaited st;
           mainDone := mainDone st; trace := trace st; apps := apps st |})
  | [] =>
      match pending st with
      | (c, k) :: ps =>
          Some (emit (Settle c)
            {| main_ := main_ st; phase := phase st;
               phaseWaiters := phaseWaiters st;
               jobs := [(k, outcome c st)]; pending := ps;
               mainAwaited := mainAwaited st; mainDone := mainDone st;
               trace := trace st; apps := apps st |})
      | [] => None
      end
  end.

Fixpoint run (fuel : nat) (st : State) : State :=
  match fuel with
  | 0 => st
  | S n => match step st with Some st' => run n st' | None => st end
  end.

(** The function [createRenderer] returns:
    [async (options) => { await rendererMain.main(options, renderAdapter);
                          return rendererMain.getApp(); }], up to its [await]. *)
Definition bootstrap (renderAdapter : RenderAdapter) (options : AppOptions)
    (st : State) : State :=
  let st := main options renderAdapter st in
  {| main_ := main_ st; phase := phase st; phaseWaiters := phaseWaiters st;
     jobs := jobs st; pending := pending st; mainAwaited := true;
     mainDone := mainDone st; trace := trace st; apps := apps st |}.

(** [createRenderer(renderAdapter)]: the instance it creates, and the function
    it returns. *)
Definition createRenderer (renderAdapter : Supplied RenderAdapter)
  : Result (State * (AppOptions -> State -> State)) :=
  invariant (is_function renderAdapter) "The first parameter must be a function.";;
  match renderAdapter with
  | NotFunction _ => Throw "unreachable"
  | IsFunction f =>
      let rendererMain := constructor in
      Ok (rendererMain, bootstrap f)
  end.

(** *** What a bootstrap is expected to do *)

(** The events of [main(options, adapter)], in order. *)
Definition main_events (options : AppOptions) (adapter_ : RenderAdapter)
  : list Event :=
  [ SchemaInitialize (schema options);
    CodeRuntimeInitialize (coalesce (codeRuntime options) (VObj []));
    PhaseSet OptionsResolved;
    Start (Adapter renderContext);
    Settle (Adapter renderContext);
    RenderObjectStored (adapter_ renderContext);
    PhaseSet Ready;
    Start (RegisterPlugin (Many (default [] (plugins options))));
    Settle (RegisterPlugin (Many (default [] (plugins options))));
    Start (LoadPackages (default [] (packages options)));
    Settle (LoadPackages (default [] (packages options)));
    PhaseSet AfterInitPackageLoad ].

(** Whether an event is a call of the adapter. *)
Definition is_adapter_call (e : Event) : bool :=
  match e with
  | Start (Adapter _) => true
  | _ => false
  end.

(** The instance once [main] has run to its end. *)
Definition bootstrapped (options : AppOptions) (adapter_ : RenderAdapter)
  : RendererMain :=
  {| mode := default Production (opt_mode options);
     initOptions := Some options;
     renderObject := adapter_ renderContext;
     adapter := Some adapter_ |}.

End Renderer.


(** ** Sample stores and options *)

Module Samples.
Import Config.

(** A validator that turns down the key ["x"] with a reason. *)
Definition no_x (key : string) (_ : Value) : Valid :=
  if String.eqb key "x" then ValidString "x is not predefined" else ValidBool true.

(** A strict store holding [{ a: { b: 1 } }], nobody waiting. *)
Definition store : World :=
  {| self := {| strictMode := true; setterValidator := no_x;
                config := [("a", VObj [("b", VNum 1)])]; waits := ∅ |};
     trace := []; promises := 0 |}.

(** The same store with two callbacks waiting for ["k"], 1 registered before 2. *)
Definition store12 : World :=
  {| self := {| strictMode := true; setterValidator := no_x;
                config := [("a", VObj [("b", VNum 1)])];
                waits := {[ "k" := [ {| once := false; resolve := UserFn 1 |};
                                     {| once := true; resolve := UserFn 2 |} ] ]} |};
     trace := []; promises := 0 |}.

(** A store with one callback waiting for ["k"]. *)
Definition store1 : World :=
  {| self := {| strictMode := true; setterValidator := no_x;
                config := [];
                waits := {[ "k" := [ {| once := false; resolve := UserFn 1 |} ] ]} |};
     trace := []; promises := 0 |}.

(** Options with a schema and one plugin, and no mode. *)
Definition options : Renderer.AppOptions :=
  {| Renderer.schema := VObj [("version", VNum 1)];
     Renderer.opt_mode := None;
     Renderer.plugins := Some [VObj [("name", VNum 1)]];
     Renderer.codeRuntime := None;
     Renderer.packages := None |}.

(** An adapter answering [{ foo: 1 }]. *)
Definition foo_adapter : Renderer.RenderAdapter :=
  fun _ => VObj [("foo", VNum 1)].

(** An adapter whose render object has fields named [use] and [mode]. *)
Definition clashing_adapter : Renderer.RenderAdapter :=
  fun _ => VObj [("use", VNum 1); ("mode", VNum 0)].

End Samples.

(** * Properties of the configuration store *)

Module ConfigFacts.
Import Config.

Section Store.
Context `{Lodash.PathSyntax}.

Lemma world_eta (w : World) :
  w = {| self := self w; trace := trace w; promises := promises w |}.
Proof. by destruct w. Qed.

Lemma config_eta (c : Configuration) :
  c = {| strictMode := strictMode c; setterValidator := setterValidator c;
         config := config c; waits := waits c |}.
Proof. by destruct c. Qed.

(** The loop never reads outside the array, although it splices while it
    walks: with [pre] still to visit and [post] behind it, it calls the
    entries of [pre] from the last to the first and keeps those of them
    that are not [once]. *)
Lemma notify_loop_spec (key : string) (pre : list WaitEntry) :
  forall (post : list WaitEntry) (w : World),
    notify_loop (length pre) (pre ++ post) key w =
      Ok (persistent pre ++ post,
          {| self := self w;
             trace := trace w ++ fired (get (self w) key VUndefined) (reverse pre);
             promises := promises w |}).
Proof.
  induction pre as [|e pre IH] using rev_ind; intros post w.
  - cbn. rewrite app_nil_r. by rewrite <- world_eta.
  - rewrite length_app, Nat.add_1_r. cbn [notify_loop length].
    rewrite <- app_assoc. cbn [app].
    rewrite list_lookup_middle by done.
    unfold mbind at 1 2, M_bind, this, invoke, emit. cbn [self trace promises].
    rewrite delete_middle, reverse_snoc.
    unfold persistent. rewrite filter_app, filter_cons, filter_nil.
    fold (persistent pre).
    destruct (once e) eqn:Ho.
    + rewrite IH. cbn [self trace promises]. rewrite decide_False by done.
      rewrite app_nil_r. unfold fired. cbn [map].
      by rewrite <- app_assoc.
    + rewrite IH. cbn [self trace promises]. rewrite decide_True by done.
      rewrite <- (app_assoc _ [e] post). unfold fired. cbn [map app].
      by rewrite <- app_assoc.
Qed.

Lemma notifyGot_none (key : string) (w : World) :
  waits (self w) !! key = None -> notifyGot key w = Ok (tt, w).
Proof.
  intros Hk. unfold notifyGot, mbind, M_bind, this. cbn. by rewrite Hk.
Qed.

Lemma notifyGot_some (key : string) (ws : list WaitEntry) (w : World) :
  waits (self w) !! key = Some ws ->
  notifyGot key w =
    Ok (tt, {| self := with_waits
                 (match persistent ws with
                  | [] => delete key (waits (self w))
                  | _ => <[key := reverse (persistent ws)]> (waits (self w))
                  end) (self w);
               trace := trace w ++ fired (get (self w) key VUndefined) ws;
               promises := promises w |}).
Proof.
  intros Hk. unfold notifyGot. unfold mbind at 1, M_bind, this. cbn.
  rewrite Hk. unfold mbind, M_bind.
  rewrite <- (app_nil_r (reverse ws)) at 2.
  rewrite notify_loop_spec, app_nil_r, reverse_involutive.
  unfold persistent. rewrite filter_reverse. fold (persistent ws).
  destruct (persistent ws) as [|e l] eqn:Hp.
  - done.
  - by rewrite length_reverse.
Qed.

(** [delWait]'s loop, in the same shape. *)
Lemma delWait_loop_spec (fn : Fn) (pre : list WaitEntry) :
  forall (post : list WaitEntry) (w : World),
    delWait_loop (length pre) (pre ++ post) fn w = Ok (others fn pre ++ post, w).
Proof.
  induction pre as [|e pre IH] using rev_ind; intros post w.
  - done.
  - rewrite length_app, Nat.add_1_r. cbn [delWait_loop length].
    rewrite <- app_assoc. cbn [app].
    rewrite list_lookup_middle by done.
    rewrite delete_middle.
    unfold others. rewrite filter_app, filter_cons, filter_nil.
    fold (others fn pre).
    destruct (decide (resolve e = fn)) as [He|He].
    + rewrite IH, decide_False by (intros Hn; by apply Hn).
      by rewrite app_nil_r.
    + rewrite IH, decide_True by done. by rewrite <- app_assoc.
Qed.

Lemma delWait_none (key : string) (fn : Fn) (w : World) :
  waits (self w) !! key = None -> delWait key fn w = Ok (tt, w).
Proof.
  intros Hk. unfold delWait, mbind, M_bind, this. cbn. by rewrite Hk.
Qed.

Lemma delWait_some (key : string) (fn : Fn) (ws : list WaitEntry) (w : World) :
  waits (self w) !! key = Some ws ->
  delWait key fn w =
    Ok (tt, {| self := with_waits
                 (match others fn ws with
                  | [] => delete key (waits (self w))
                  | _ => <[key := others fn ws]> (waits (self w))
                  end) (self w);
               trace := trace w;
               promises := promises w |}).
Proof.
  intros Hk. unfold delWait. unfold mbind at 1, M_bind, this. cbn.
  rewrite Hk. unfold mbind, M_bind.
  rewrite <- (app_nil_r ws) at 2.
  rewrite delWait_loop_spec, app_nil_r.
  by destruct (others fn ws) as [|e l] eqn:Hp; cbn.
Qed.

Lemma setWait_spec (key : string) (fn : Fn) (o : bool) (w : World) :
  setWait key fn o w =
    Ok (tt, {| self := with_waits
                 (<[key := waiting (self w) key ++ [{| once := o; resolve := fn |}]]>
                    (waits (self w))) (self w);
               trace := trace w;
               promises := promises w |}).
Proof.
  unfold setWait, waiting, mbind, M_bind, this, update. cbn.
  by destruct (waits (self w) !! key).
Qed.

Lemma set_rejected (key : string) (value : Value) (w : World) :
  accepts (self w) key value = false ->
  set key value w =
    Ok (tt, {| self := self w;
               trace := trace w ++
                 [Warn key (reason (setterValidator (self w) key value))];
               promises := promises w |}).
Proof.
  unfold accepts, set, mbind, M_bind, this. cbn.
  destruct (strictMode (self w)); cbn; [|done].
  destruct (rejected _); cbn; [|done]. done.
Qed.

Lemma set_accepted (key : string) (value : Value) (w : World) :
  accepts (self w) key value = true ->
  set key value w =
    notifyGot key
      {| self := with_config (prop_set (config (self w)) key value) (self w);
         trace := trace w; promises := promises w |}.
Proof.
  unfold accepts, set, mbind, M_bind, this, update. cbn.
  destruct (strictMode (self w)); cbn; [|done].
  destruct (rejected _); cbn; [done|]. done.
Qed.

(** *** Objects *)

Lemma own_prop_set_eq {A} (o : list (string * A)) (k : string) (v : A) :
  own (prop_set o k v) k = Some v.
Proof.
  induction o as [|[k' v'] o IH]; cbn.
  - by rewrite String.eqb_refl.
  - destruct (String.eqb k' k) eqn:E; cbn; rewrite E; [done | apply IH].
Qed.

Lemma own_prop_set_ne {A} (o : list (string * A)) (k k' : string) (v : A) :
  k <> k' -> own (prop_set o k v) k' = own o k'.
Proof.
  intros Hne. induction o as [|[k0 v0] o IH]; cbn.
  - by apply String.eqb_neq in Hne as ->.
  - destruct (String.eqb k0 k) eqn:E; cbn.
    + apply String.eqb_eq in E as ->.
      by apply String.eqb_neq in Hne as ->.
    + by rewrite IH.
Qed.

Lemma prop_get_set (o : Obj) (k k' : string) (v : Value) :
  prop_get (prop_set o k v) k' = if decide (k' = k) then v else prop_get o k'.
Proof.
  unfold prop_get. destruct (decide (k' = k)) as [->|Hne].
  - by rewrite own_prop_set_eq.
  - by rewrite own_prop_set_ne.
Qed.

(** A key just written is read back by [get], dots or not: the literal
    key is an own property, and that comes first. *)
Lemma get_after_write (c : Configuration) (key : string) (value : Value) :
  get (with_config (prop_set (config c) key value) c) key VUndefined = value.
Proof.
  unfold get, Lodash.get, Lodash.baseGet, Lodash.castPath, Lodash.isKey.
  cbn. unfold has_own. rewrite own_prop_set_eq, orb_true_r. cbn.
  unfold prop_get. rewrite own_prop_set_eq. by destruct value.
Qed.

(** *** The waiters of a key *)

Lemma waiting_insert (c : Configuration) (key k' : string) (l : list WaitEntry) :
  waiting (with_waits (<[key := l]> (waits c)) c) k' =
    if decide (k' = key) then l else waiting c k'.
Proof.
  unfold waiting. cbn. destruct (decide (k' = key)) as [->|Hne].
  - by rewrite lookup_insert_eq.
  - by rewrite lookup_insert_ne.
Qed.

Lemma waiting_delete (c : Configuration) (key k' : string) :
  waiting (with_waits (delete key (waits c)) c) k' =
    if decide (k' = key) then [] else waiting c k'.
Proof.
  unfold waiting. cbn. destruct (decide (k' = key)) as [->|Hne].
  - by rewrite lookup_delete_eq.
  - by rewrite lookup_delete_ne.
Qed.

(** [notifyGot] never throws; it calls the stored waiters from the first to
    the last, and keeps those that are not [once], reversed. *)
Lemma notifyGot_effect (key : string) (w : World) :
  exists w',
    notifyGot key w = Ok (tt, w') /\
    settings_kept w w' /\
    config (self w') = config (self w) /\
    promises w' = promises w /\
    trace w' = trace w ++ fired (get (self w) key VUndefined) (waiting (self w) key) /\
    forall k', waiting (self w') k' =
      if decide (k' = key) then reverse (persistent (waiting (self w) key))
      else waiting (self w) k'.
Proof.
  destruct (waits (self w) !! key) as [ws|] eqn:Hk.
  - assert (waiting (self w) key = ws) as Hw by (unfold waiting; by rewrite Hk).
    eexists. split; [by apply notifyGot_some|].
    rewrite Hw. cbn [self trace promises].
    repeat split; try done.
    intros k'. destruct (persistent ws) eqn:Hp.
    + rewrite waiting_delete. by case_decide.
    + rewrite waiting_insert. by case_decide.
  - assert (waiting (self w) key = []) as Hw by (unfold waiting; by rewrite Hk).
    exists w. split; [by apply notifyGot_none|].
    rewrite Hw. cbn. rewrite app_nil_r.
    repeat split; try done.
    intros k'. case_decide; [by subst | done].
Qed.

Lemma setWait_effect (key : string) (fn : Fn) (o : bool) (w : World) :
  exists w',
    setWait key fn o w = Ok (tt, w') /\
    settings_kept w w' /\
    config (self w') = config (self w) /\
    promises w' = promises w /\
    trace w' = trace w /\
    forall k', waiting (self w') k' =
      if decide (k' = key)
      then waiting (self w) key ++ [{| once := o; resolve := fn |}]
      else waiting (self w) k'.
Proof.
  eexists. split; [apply setWait_spec|]. cbn [self trace promises].
  repeat split; try done. intros k'. by rewrite waiting_insert.
Qed.

Lemma delWait_effect (key : string) (fn : Fn) (w : World) :
  exists w',
    delWait key fn w = Ok (tt, w') /\
    settings_kept w w' /\
    config (self w') = config (self w) /\
    promises w' = promises w /\
    trace w' = trace w /\
    forall k', waiting (self w') k' =
      if decide (k' = key) then others fn (waiting (self w) key)
      else waiting (self w) k'.
Proof.
  destruct (waits (self w) !! key) as [ws|] eqn:Hk.
  - assert (waiting (self w) key = ws) as Hw by (unfold waiting; by rewrite Hk).
    eexists. split; [by apply delWait_some|].
    rewrite Hw. cbn [self trace promises].
    repeat split; try done.
    intros k'. destruct (others fn ws) eqn:Hp.
    + rewrite waiting_delete. by case_decide.
    + rewrite waiting_insert. by case_decide.
  - assert (waiting (self w) key = []) as Hw by (unfold waiting; by rewrite Hk).
    exists w. split; [by apply delWait_none|].
    rewrite Hw. repeat split; try done.
    intros k'. case_decide; [by subst | done].
Qed.

Lemma set_effect (key : string) (value : Value) (w : World) :
  exists w',
    set key value w = Ok (tt, w') /\
    settings_kept w w' /\
    promises w' = promises w /\
    (accepts (self w) key value = true ->
       config (self w') = prop_set (config (self w)) key value /\
       trace w' = trace w ++ fired value (waiting (self w) key) /\
       forall k', waiting (self w') k' =
         if decide (k' = key) then reverse (persistent (waiting (self w) key))
         else waiting (self w) k') /\
    (accepts (self w) key value = false ->
       self w' = self w /\
       trace w' = trace w ++
         [Warn key (reason (setterValidator (self w) key value))]).
Proof.
  destruct (accepts (self w) key value) eqn:Ha.
  - rewrite set_accepted by done.
    edestruct notifyGot_effect as (w' & -> & Hs & Hc & Hp & Ht & Hw).
    exists w'. cbn in *. rewrite get_after_write in Ht.
    repeat split; try done; apply Hs.
  - rewrite set_rejected by done. eexists.
    repeat split; try done.
Qed.

(** *** Counting calls *)

Lemma calls_app (fn : Fn) (tr tr' : list Event) :
  calls fn (tr ++ tr') = calls fn tr ++ calls fn tr'.
Proof.
  induction tr as [|[f v|k r] tr IH]; cbn; [done| |done].
  case_decide; cbn; by rewrite IH.
Qed.

Lemma calls_fired (fn : Fn) (data : Value) (ws : list WaitEntry) :
  calls fn (fired data ws) = map (fun _ => data) (registrations fn ws).
Proof.
  unfold registrations.
  induction ws as [|e ws IH]; [done|].
  rewrite filter_cons. cbn [fired map calls].
  destruct (decide (resolve e = fn)); cbn [map]; by rewrite <- IH.
Qed.

Lemma calls_warn (fn : Fn) (key r : string) : calls fn [Warn key r] = [].
Proof. done. Qed.

(** *** The claims on [set], [notifyGot] and dotted keys *)

(** C1. In strict mode, a [set] the validator answers with [false] or a
    string leaves the store as it was, calls no waiter and does not throw
    (it only logs); a [set] the validator answers with [true] stores the
    value under the key, so that [has] holds for a defined value, and runs
    [notifyGot] for the key. *)
Theorem set_strict_mode (key : string) (value : Value) (w : World) :
  strictMode (self w) = true ->
  (rejected (setterValidator (self w) key value) = true ->
     exists w',
       set key value w = Ok (tt, w') /\
       self w' = self w /\
       has (self w') key = has (self w) key /\
       (forall fn, calls fn (trace w') = calls fn (trace w)) /\
       trace w' = trace w ++
         [Warn key (reason (setterValidator (self w) key value))]) /\
  (setterValidator (self w) key value = ValidBool true ->
     exists w',
       set key value w = Ok (tt, w') /\
       config (self w') = prop_set (config (self w)) key value /\
       prop_get (config (self w')) key = value /\
       (defined value = true -> has (self w') key = true) /\
       set key value w =
         notifyGot key
           {| self := with_config (prop_set (config (self w)) key value) (self w);
              trace := trace w; promises := promises w |} /\
       trace w' = trace w ++ fired value (waiting (self w) key)).
Proof.
  intros Hstrict. split.
  - intros Hrej.
    assert (accepts (self w) key value = false) as Ha
      by (unfold accepts; by rewrite Hstrict, Hrej).
    destruct (set_effect key value w) as (w' & Hrun & _ & _ & _ & Hno).
    destruct (Hno Ha) as [Hself Htr].
    exists w'. rewrite Hself. repeat split; try done.
    intros fn. by rewrite Htr, calls_app, calls_warn, app_nil_r.
  - intros Hok.
    assert (accepts (self w) key value = true) as Ha
      by (unfold accepts; by rewrite Hstrict, Hok).
    destruct (set_effect key value w) as (w' & Hrun & _ & _ & Hyes & _).
    destruct (Hyes Ha) as (Hcfg & Htr & _).
    exists w'. rewrite Hcfg.
    assert (prop_get (prop_set (config (self w)) key value) key = value) as Hget
      by (rewrite prop_get_set; by case_decide).
    repeat split; try done.
    + unfold has. by rewrite Hcfg, Hget.
    + by apply set_accepted.
Qed.

(** Waiters registered one after the other are stored in that order, behind
    those already there; nothing is called and the config stays. *)
Lemma register_all_effect (key : string) (regs : list WaitEntry) :
  forall w : World,
    exists w1,
      register_all key regs w = Ok (tt, w1) /\
      config (self w1) = config (self w) /\
      trace w1 = trace w /\
      waiting (self w1) key = waiting (self w) key ++ regs.
Proof.
  induction regs as [|e regs IH]; intros w.
  - exists w. by rewrite app_nil_r.
  - destruct (setWait_effect key (resolve e) (once e) w)
      as (w0 & Hrun & _ & Hc0 & _ & Ht0 & Hw0).
    destruct (IH w0) as (w1 & Hrest & Hc1 & Ht1 & Hw1).
    exists w1. split; [|split; [congruence|split; [congruence|]]].
    + unfold register_all. cbn [forEach]. unfold mbind, M_bind. by rewrite Hrun.
    + rewrite Hw1, Hw0, decide_True by done.
      rewrite <- app_assoc. by destruct e.
Qed.

(** C4, as the code has it.  For a key without an entry whose waiters are
    then registered one after the other, [notifyGot] calls them from the one
    registered first to the one registered last: oldest first, not newest
    first.  Afterwards the waiters that are not [once] are the ones
    registered for the key, or the entry of the key is deleted when none is
    left. *)
Theorem notifyGot_order (key : string) (regs : list WaitEntry) (w : World) :
  waits (self w) !! key = None ->
  exists w1 w2,
    register_all key regs w = Ok (tt, w1) /\
    notifyGot key w1 = Ok (tt, w2) /\
    trace w2 = trace w ++ fired (get (self w) key VUndefined) regs /\
    waiting (self w2) key ≡ₚ persistent regs /\
    (waits (self w2) !! key = None <-> persistent regs = []).
Proof.
  intros Hk.
  destruct (register_all_effect key regs w) as (w1 & Hrun & Hc1 & Ht1 & Hw1).
  assert (waiting (self w) key = []) as Hnone by (unfold waiting; by rewrite Hk).
  rewrite Hnone in Hw1. cbn [app] in Hw1.
  assert (get (self w1) key VUndefined = get (self w) key VUndefined) as Hget
    by (unfold get; by rewrite Hc1).
  destruct regs as [|e regs].
  - unfold register_all in Hrun. cbn in Hrun. injection Hrun as <-.
    exists w, w. split; [done|]. split; [by apply notifyGot_none|].
    split; [by rewrite app_nil_r|]. split; [by rewrite Hnone|]. done.
  - assert (waits (self w1) !! key = Some (e :: regs)) as Hk1.
    { unfold waiting in Hw1. by destruct (waits (self w1) !! key) as [l|]; cbn in Hw1; subst. }
    eexists w1, _. split; [done|].
    split; [by apply notifyGot_some|]. cbn [self trace].
    split; [by rewrite Ht1, Hget|].
    destruct (persistent (e :: regs)) as [|e' l] eqn:Hp.
    + split; [|split; [done|]].
      * unfold waiting. cbn. by rewrite lookup_delete_eq.
      * intros _. cbn. by rewrite lookup_delete_eq.
    + split; [|split; [|done]].
      * unfold waiting. cbn -[reverse]. rewrite lookup_insert_eq. cbn -[reverse].
        apply reverse_Permutation.
      * cbn -[reverse]. by rewrite lookup_insert_eq.
Qed.

(** C5. One [notifyGot] makes exactly one call per registered waiter of the
    key, whatever the mix of [once] and lasting entries, and never reads
    outside the list it splices; afterwards exactly the entries that are
    not [once] are registered for the key. *)
Theorem notifyGot_each_once (key : string) (ws : list WaitEntry) (w : World) :
  waits (self w) !! key = Some ws ->
  exists w',
    notifyGot key w = Ok (tt, w') /\
    trace w' = trace w ++ fired (get (self w) key VUndefined) ws /\
    (forall fn, length (calls fn (trace w')) =
                length (calls fn (trace w)) + length (registrations fn ws)) /\
    waiting (self w') key ≡ₚ persistent ws /\
    (waits (self w') !! key = None <-> persistent ws = []) /\
    config (self w') = config (self w).
Proof.
  intros Hk.
  assert (waiting (self w) key = ws) as Hw by (unfold waiting; by rewrite Hk).
  destruct (notifyGot_effect key w) as (w' & Hrun & _ & Hc & _ & Ht & Hws).
  rewrite Hw in Ht, Hws.
  exists w'. repeat split; try done.
  - intros fn. by rewrite Ht, calls_app, calls_fired, length_app, length_map.
  - rewrite Hws. rewrite decide_True by done. apply reverse_Permutation.
  - rewrite (notifyGot_some key ws w Hk) in Hrun.
    injection Hrun as <-. cbn. destruct (persistent ws) eqn:Hp; [done|].
    by rewrite lookup_insert_eq.
  - rewrite (notifyGot_some key ws w Hk) in Hrun.
    injection Hrun as <-. cbn. intros ->. by rewrite lookup_delete_eq.
Qed.

(** C10. [has] looks at the literal key only, [get] follows a deep path:
    for a key that is no own property and that lodash splits into [a] and
    [b], with [config[a][b]] defined, [get] finds the value and [has]
    answers [false]. *)
Theorem has_get_disagree (c : Configuration) (key a b : string)
    (inner : Obj) (v : Value) :
  Lodash.reIsDeepProp key = true ->
  Lodash.stringToPath key = [a; b] ->
  own (config c) key = None ->
  own (config c) a = Some (VObj inner) ->
  own inner b = Some v ->
  defined v = true ->
  get c key VUndefined = v /\ has c key = false.
Proof.
  intros Hdeep Hpath Hk Ha Hb Hv.
  unfold get, has, Lodash.get, Lodash.baseGet, Lodash.castPath, Lodash.isKey.
  unfold has_own, prop_get. rewrite Hdeep, Hk, Hpath. cbn.
  unfold prop_get. rewrite Ha. cbn. unfold prop_get. rewrite Hb.
  by rewrite Hv.
Qed.

(** *** [setConfig] *)

Lemma accepts_kept (w w' : World) (key : string) (value : Value) :
  settings_kept w w' -> accepts (self w') key value = accepts (self w) key value.
Proof. intros [Hs Hv]. unfold accepts. by rewrite Hs, Hv. Qed.

Lemma settings_kept_trans (w1 w2 w3 : World) :
  settings_kept w1 w2 -> settings_kept w2 w3 -> settings_kept w1 w3.
Proof. intros [? ?] [? ?]. split; congruence. Qed.

Lemma has_own_keys {A} (o : list (string * A)) (k : string) :
  has_own o k = bool_decide (k ∈ map fst o).
Proof.
  unfold has_own. induction o as [|[k' v] o IH]; cbn; [done|].
  destruct (String.eqb k' k) eqn:E.
  - apply String.eqb_eq in E as ->. symmetry. apply bool_decide_eq_true.
    apply list_elem_of_here.
  - rewrite IH. apply String.eqb_neq in E.
    apply bool_decide_ext.
    split; [by apply list_elem_of_further|].
    intros [Heq|Hin]%elem_of_cons; [by symmetry in Heq | done].
Qed.

(** Setting the keys of [l] one after the other, each to [g] of it: every
    key is judged on its own. *)
Lemma forEach_set (g : string -> Value) (l : list string) :
  forall w : World,
    exists w',
      forEach l (fun key => set key (g key)) w = Ok (tt, w') /\
      settings_kept w w' /\
      forall k, prop_get (config (self w')) k =
        if bool_decide (k ∈ l) && accepts (self w) k (g k) then g k
        else prop_get (config (self w)) k.
Proof.
  induction l as [|x l IH]; intros w.
  - exists w. by repeat split.
  - destruct (set_effect x (g x) w) as (w1 & Hrun & Hs1 & _ & Hyes & Hno).
    destruct (IH w1) as (w' & Hrest & Hs' & Hcfg).
    exists w'. split; [|split].
    + cbn [forEach]. unfold mbind, M_bind. by rewrite Hrun.
    + by eapply settings_kept_trans.
    + intros k. rewrite Hcfg, (accepts_kept w w1) by done.
      destruct (decide (k = x)) as [->|Hne].
      * rewrite (bool_decide_eq_true_2 (x ∈ x :: l)) by apply list_elem_of_here.
        destruct (accepts (self w) x (g x)) eqn:Ha.
        -- rewrite andb_true_r. cbn [andb].
           destruct (Hyes eq_refl) as (-> & _). rewrite prop_get_set.
           rewrite decide_True by done. by case_bool_decide.
        -- rewrite andb_false_r. by destruct (Hno eq_refl) as (-> & _).
      * assert (bool_decide (k ∈ x :: l) = bool_decide (k ∈ l)) as ->
          by (apply bool_decide_ext; rewrite elem_of_cons;
      split; [intros [Heq|Hin]; [done|done] | by right]).
        destruct (bool_decide (k ∈ l) && accepts (self w) k (g k)); [done|].
        destruct (accepts (self w) x (g x)) eqn:Ha.
        -- destruct (Hyes eq_refl) as (-> & _). rewrite prop_get_set.
           by rewrite decide_False.
        -- by destruct (Hno eq_refl) as (-> & _).
Qed.

(** C9. [setConfig] of something that is no plain object does nothing at
    all.  [setConfig] of a plain object is [set(k, obj[k])] for each own key
    in turn; it never throws, and every key is judged by the validator on
    its own: the accepted keys are stored, the others keep what they had. *)
Theorem setConfig_partial :
  (forall (v : Value) (w : World),
     isPlainObject v = false -> setConfig v w = Ok (tt, w)) /\
  (forall (o : Obj) (w : World),
     setConfig (VObj o) w =
       forEach (map fst o) (fun key => set key (prop_get o key)) w) /\
  (forall (o : Obj) (w : World),
     exists w',
       setConfig (VObj o) w = Ok (tt, w') /\
       forall k, prop_get (config (self w')) k =
         if has_own o k && accepts (self w) k (prop_get o k) then prop_get o k
         else prop_get (config (self w)) k).
Proof.
  split; [|split].
  - intros v w Hv. unfold setConfig. by rewrite Hv.
  - done.
  - intros o w.
    destruct (forEach_set (prop_get o) (map fst o) w) as (w' & Hrun & _ & Hcfg).
    exists w'. split; [done|].
    intros k. by rewrite Hcfg, has_own_keys.
Qed.

(** *** [onGot] and its unsubscribe function *)

Lemma registrations_persistent (fn : Fn) (ws : list WaitEntry) :
  registrations fn (persistent ws) = persistent (registrations fn ws).
Proof.
  unfold registrations, persistent.
  induction ws as [|e ws IH]; [done|].
  rewrite !filter_cons.
  destruct (decide (once e = false)), (decide (resolve e = fn));
    rewrite ?filter_cons, ?decide_True, ?decide_False by done; by rewrite IH.
Qed.

Lemma registrations_kept (fn : Fn) (ws : list WaitEntry) :
  registrations fn (reverse (persistent ws)) =
    reverse (persistent (registrations fn ws)).
Proof.
  unfold registrations at 1. rewrite filter_reverse.
  fold (registrations fn (persistent ws)). by rewrite registrations_persistent.
Qed.

Lemma registrations_snoc (fn : Fn) (ws : list WaitEntry) (e : WaitEntry) :
  registrations fn (ws ++ [e]) =
    registrations fn ws ++ (if decide (resolve e = fn) then [e] else []).
Proof. unfold registrations. by rewrite filter_app, filter_singleton. Qed.

Lemma registrations_others (fn fn' : Fn) (ws : list WaitEntry) :
  registrations fn (others fn' ws) =
    if decide (fn = fn') then [] else registrations fn ws.
Proof.
  unfold registrations, others.
  induction ws as [|e ws IH]; [by case_decide|].
  rewrite !filter_cons.
  destruct (decide (resolve e <> fn')) as [Hne|He].
  - rewrite filter_cons, IH.
    destruct (decide (resolve e = fn)) as [<-|]; [|done].
    rewrite !decide_False by done. done.
  - rewrite IH. destruct (decide (resolve e = fn)) as [<-|]; [|done].
    destruct (decide (resolve e = fn')) as [E|E]; [done | by destruct He].
Qed.

Lemma others_twice (fn : Fn) (ws : list WaitEntry) :
  others fn (others fn ws) = others fn ws.
Proof.
  unfold others. rewrite list_filter_filter. apply list_filter_iff. tauto.
Qed.

Lemma onGot_effect (key : string) (fn : nat) (w : World) :
  exists w',
    onGot key fn w = Ok (delWait key (UserFn fn), w') /\
    settings_kept w w' /\
    config (self w') = config (self w) /\
    promises w' = promises w /\
    trace w' = trace w ++
      (if defined (prop_get (config (self w)) key)
       then [Call (UserFn fn) (prop_get (config (self w)) key)] else []) /\
    forall k', waiting (self w') k' =
      if decide (k' = key)
      then waiting (self w) key ++ [{| once := false; resolve := UserFn fn |}]
      else waiting (self w) k'.
Proof.
  unfold onGot. unfold mbind at 1, M_bind at 1, this at 1. cbn.
  destruct (defined (prop_get (config (self w)) key)).
  - unfold mbind, M_bind, invoke, emit. rewrite setWait_spec. cbn.
    eexists. split; [done|]. cbn.
    repeat split; try done. intros k'. by rewrite waiting_insert.
  - unfold mbind, M_bind, mret, M_ret. rewrite setWait_spec. cbn.
    eexists. split; [done|]. cbn. rewrite app_nil_r.
    repeat split; try done. intros k'. by rewrite waiting_insert.
Qed.

(** Unsubscribing twice is unsubscribing once. *)
Lemma delWait_twice (key : string) (fn : Fn) (w w' : World) :
  delWait key fn w = Ok (tt, w') -> delWait key fn w' = Ok (tt, w').
Proof.
  destruct (waits (self w) !! key) as [ws|] eqn:Hk.
  - rewrite (delWait_some key fn ws) by done. intros [= <-].
    pose proof (others_twice fn ws) as Htw.
    destruct (others fn ws) as [|e l] eqn:Ho.
    + apply delWait_none. cbn. by rewrite lookup_delete_eq.
    + rewrite (delWait_some key fn (e :: l))
        by (cbn; by rewrite lookup_insert_eq).
      rewrite Htw. cbn. by rewrite insert_insert_eq.
  - rewrite delWait_none by done. intros [= <-]. by apply delWait_none.
Qed.

(** An accepted [set] calls a function once per registration under the
    key, with the value set, and keeps its lasting registrations. *)
Lemma set_calls (key : string) (value : Value) (fn : Fn) (w : World) :
  accepts (self w) key value = true ->
  exists w',
    set key value w = Ok (tt, w') /\
    settings_kept w w' /\
    calls fn (trace w') =
      calls fn (trace w) ++
      map (fun _ => value) (registrations fn (waiting (self w) key)) /\
    registrations fn (waiting (self w') key) =
      reverse (persistent (registrations fn (waiting (self w) key))) /\
    waiting (self w') key = reverse (persistent (waiting (self w) key)).
Proof.
  intros Ha.
  destruct (set_effect key value w) as (w' & Hrun & Hs & _ & Hyes & _).
  destruct (Hyes Ha) as (_ & Htr & Hws).
  exists w'. repeat split; try done; try apply Hs.
  - by rewrite Htr, calls_app, calls_fired.
  - rewrite Hws, decide_True by done. apply registrations_kept.
  - by rewrite Hws, decide_True.
Qed.

(** C3. [onGot(key, fn)] calls [fn] at once, exactly once, with the current
    value when that is defined, and not at all otherwise; it registers [fn]
    as a lasting waiter.  Every later accepted [set] of the key then calls a
    registered [fn] with the value set and keeps it registered; with the key
    unset and [fn] not registered before, two accepted sets give [fn] exactly
    the two values, in order.  The function returned removes the
    registrations of [fn] under the key and nothing else, and a second call
    of it changes nothing. *)
Theorem onGot_subscription (key : string) (fn : nat) (w : World) :
  let entry := {| once := false; resolve := UserFn fn |} in
  let current := prop_get (config (self w)) key in
  exists (unsubscribe : M unit) (w1 : World),
    onGot key fn w = Ok (unsubscribe, w1) /\
    trace w1 = trace w ++
      (if defined current then [Call (UserFn fn) current] else []) /\
    waiting (self w1) key = waiting (self w) key ++ [entry] /\
    (forall (w2 : World) (v : Value),
       entry ∈ waiting (self w2) key ->
       accepts (self w2) key v = true ->
       exists w3,
         set key v w2 = Ok (tt, w3) /\
         calls (UserFn fn) (trace w3) =
           calls (UserFn fn) (trace w2) ++
           map (fun _ => v) (registrations (UserFn fn) (waiting (self w2) key)) /\
         0 < length (registrations (UserFn fn) (waiting (self w2) key)) /\
         entry ∈ waiting (self w3) key) /\
    (forall v1 v2 : Value,
       has (self w) key = false ->
       registrations (UserFn fn) (waiting (self w) key) = [] ->
       accepts (self w) key v1 = true ->
       accepts (self w) key v2 = true ->
       exists w3,
         (set key v1;; set key v2) w1 = Ok (tt, w3) /\
         calls (UserFn fn) (trace w3) = calls (UserFn fn) (trace w) ++ [v1; v2]) /\
    (forall w2 : World,
       exists w3,
         unsubscribe w2 = Ok (tt, w3) /\
         registrations (UserFn fn) (waiting (self w3) key) = [] /\
         waiting (self w3) key = others (UserFn fn) (waiting (self w2) key) /\
         (forall k', k' <> key -> waiting (self w3) k' = waiting (self w2) k') /\
         trace w3 = trace w2 /\
         config (self w3) = config (self w2) /\
         unsubscribe w3 = Ok (tt, w3)).
Proof.
  intros entry current.
  destruct (onGot_effect key fn w) as (w1 & Hrun & Hs1 & _ & _ & Htr1 & Hws1).
  pose proof (Hws1 key) as Hk1. rewrite decide_True in Hk1 by done.
  exists (delWait key (UserFn fn)), w1.
  split; [done|]. split; [done|]. split; [done|]. split; [|split].
  - intros w2 v Hin Ha.
    destruct (set_calls key v (UserFn fn) w2 Ha) as (w3 & Hset & _ & Hc & _ & Hw3).
    exists w3. repeat split; try done.
    + assert (entry ∈ registrations (UserFn fn) (waiting (self w2) key)) as Hreg
        by (by apply list_elem_of_filter).
      destruct (registrations _ _); [by apply elem_of_nil in Hreg | cbn; lia].
    + rewrite Hw3. apply elem_of_reverse. by apply list_elem_of_filter.
  - intros v1 v2 Hhas Hnew Ha1 Ha2.
    unfold has in Hhas. rewrite Hhas, app_nil_r in Htr1.
    rewrite <- (accepts_kept w w1) in Ha1 by done.
    destruct (set_calls key v1 (UserFn fn) w1 Ha1)
      as (w2 & Hset1 & Hs2 & Hc2 & Hr2 & _).
    rewrite <- (accepts_kept w w1), <- (accepts_kept w1 w2) in Ha2 by done.
    destruct (set_calls key v2 (UserFn fn) w2 Ha2)
      as (w3 & Hset2 & _ & Hc3 & _ & _).
    exists w3. split.
    + unfold mbind, M_bind. by rewrite Hset1.
    + rewrite Hk1, registrations_snoc, Hnew in Hc2, Hr2.
      cbn [resolve entry] in Hc2, Hr2.
      rewrite decide_True in Hc2, Hr2 by done.
      rewrite Hc3, Hr2, Hc2, Htr1. cbn. by rewrite <- app_assoc.
  - intros w2.
    destruct (delWait_effect key (UserFn fn) w2)
      as (w3 & Hdel & _ & Hc & _ & Ht & Hws).
    exists w3. split; [done|].
    pose proof (Hws key) as Hk. rewrite decide_True in Hk by done.
    repeat split; try done.
    + rewrite Hk, registrations_others. by rewrite decide_True.
    + intros k' Hne. by rewrite Hws, decide_False.
    + by eapply delWait_twice.
Qed.

(** *** [onceGot]: following one promise through a caller's actions *)

Lemma onceGot_defined (key : string) (w : World) :
  defined (prop_get (config (self w)) key) = true ->
  onceGot key w = Ok (Resolved (prop_get (config (self w)) key), w).
Proof.
  intros Hd. unfold onceGot, mbind, M_bind, this. cbn. by rewrite Hd.
Qed.

Lemma onceGot_undefined (key : string) (w : World) :
  defined (prop_get (config (self w)) key) = false ->
  exists w',
    onceGot key w = Ok (Pending (promises w), w') /\
    settings_kept w w' /\
    config (self w') = config (self w) /\
    promises w' = S (promises w) /\
    trace w' = trace w /\
    forall k', waiting (self w') k' =
      if decide (k' = key)
      then waiting (self w) key ++ [promise_entry (promises w)]
      else waiting (self w) k'.
Proof.
  intros Hd. unfold onceGot. unfold mbind at 1, M_bind at 1, this at 1. cbn.
  rewrite Hd. unfold mbind, M_bind, newPromise. rewrite setWait_spec. cbn.
  eexists. split; [done|]. cbn.
  repeat split; try done. intros k'. by rewrite waiting_insert.
Qed.

Lemma set_tracked (fn : Fn) (key : string) (rs : list WaitEntry)
    (cs : list Value) (k : string) (v : Value) (w : World) :
  tracked fn key rs cs w ->
  exists w',
    set k v w = Ok (tt, w') /\
    settings_kept w w' /\
    promises w' = promises w /\
    tracked fn key
      (if decide (k = key) then
         if accepts (self w) k v then reverse (persistent rs) else rs
       else rs)
      (if decide (k = key) then
         if accepts (self w) k v then cs ++ map (fun _ => v) rs else cs
       else cs) w'.
Proof.
  intros (Hrs & Hother & Hcs).
  destruct (set_effect k v w) as (w' & Hrun & Hs & Hp & Hyes & Hno).
  exists w'. split; [done|]. split; [done|]. split; [done|].
  destruct (accepts (self w) k v) eqn:Ha.
  - destruct (Hyes eq_refl) as (_ & Htr & Hws). split; [|split].
    + rewrite Hws. destruct (decide (k = key)) as [->|Hne].
      * by rewrite decide_True, registrations_kept, Hrs.
      * by rewrite decide_False.
    + intros k' Hk'. rewrite Hws. case_decide as Hkk; [|by apply Hother].
      subst k'. by rewrite registrations_kept, Hother.
    + rewrite Htr, calls_app, calls_fired, Hcs.
      destruct (decide (k = key)) as [->|Hne]; [by rewrite Hrs|].
      by rewrite Hother, app_nil_r.
  - destruct (Hno eq_refl) as (Hself & Htr).
    assert (tracked fn key rs cs w') as Hkeep.
    { unfold tracked. by rewrite Hself, Htr, calls_app, calls_warn, app_nil_r. }
    by case_decide.
Qed.

Lemma delWait_tracked (fn : Fn) (key : string) (rs : list WaitEntry)
    (cs : list Value) (k : string) (f : nat) (w : World) :
  tracked fn key rs cs w ->
  fn <> UserFn f ->
  exists w',
    delWait k (UserFn f) w = Ok (tt, w') /\
    settings_kept w w' /\
    promises w' = promises w /\
    tracked fn key rs cs w'.
Proof.
  intros (Hrs & Hother & Hcs) Hne.
  destruct (delWait_effect k (UserFn f) w) as (w' & Hrun & Hs & _ & Hp & Ht & Hws).
  exists w'. split; [done|]. split; [done|]. split; [done|].
  assert (forall k', registrations fn (waiting (self w') k') =
                     registrations fn (waiting (self w) k')) as Hsame.
  { intros k'. rewrite Hws. case_decide as Hkk; [|done].
    subst k'. by rewrite registrations_others, decide_False. }
  split; [|split].
  - by rewrite Hsame.
  - intros k' Hk'. rewrite Hsame. by apply Hother.
  - by rewrite Ht.
Qed.

Lemma onGot_tracked (fn : Fn) (key : string) (rs : list WaitEntry)
    (cs : list Value) (k : string) (f : nat) (w : World) :
  tracked fn key rs cs w ->
  fn <> UserFn f ->
  exists u w',
    onGot k f w = Ok (u, w') /\
    settings_kept w w' /\
    promises w' = promises w /\
    tracked fn key rs cs w'.
Proof.
  intros (Hrs & Hother & Hcs) Hne.
  destruct (onGot_effect k f w) as (w' & Hrun & Hs & _ & Hp & Ht & Hws).
  exists (delWait k (UserFn f)), w'.
  split; [done|]. split; [done|]. split; [done|].
  assert (forall k', registrations fn (waiting (self w') k') =
                     registrations fn (waiting (self w) k')) as Hsame.
  { intros k'. rewrite Hws. case_decide as Hkk; [|done].
    subst k'. rewrite registrations_snoc. cbn.
    rewrite decide_False by done. by rewrite app_nil_r. }
  split; [|split].
  - by rewrite Hsame.
  - intros k' Hk'. rewrite Hsame. by apply Hother.
  - rewrite Ht, calls_app, Hcs.
    destruct (defined _); cbn; [|by rewrite app_nil_r].
    rewrite decide_False by done. by rewrite app_nil_r.
Qed.

Lemma onceGot_tracked (fn : Fn) (key : string) (rs : list WaitEntry)
    (cs : list Value) (k : string) (w : World) :
  tracked fn key rs cs w ->
  ~ registers w (OOnceGot k) fn ->
  exists r w',
    onceGot k w = Ok (r, w') /\
    settings_kept w w' /\
    promises w' =
      (if defined (prop_get (config (self w)) k) then promises w
       else S (promises w)) /\
    tracked fn key rs cs w'.
Proof.
  intros (Hrs & Hother & Hcs) Hne.
  destruct (defined (prop_get (config (self w)) k)) eqn:Hd.
  - exists (Resolved (prop_get (config (self w)) k)), w.
    split; [by apply onceGot_defined|]. by repeat split.
  - destruct (onceGot_undefined k w Hd) as (w' & Hrun & Hs & _ & Hp & Ht & Hws).
    exists (Pending (promises w)), w'.
    split; [done|]. split; [done|]. split; [done|].
    assert (forall k', registrations fn (waiting (self w') k') =
                       registrations fn (waiting (self w) k')) as Hsame.
    { intros k'. rewrite Hws. case_decide as Hkk; [|done].
      subst k'. rewrite registrations_snoc. cbn.
      rewrite decide_False; [by rewrite app_nil_r|].
      intros E. apply Hne. cbn. by rewrite Hd. }
    split; [|split].
    + by rewrite Hsame.
    + intros k' Hk'. rewrite Hsame. by apply Hother.
    + by rewrite Ht.
Qed.

(** A function registered nowhere is not called, whatever is set. *)
Lemma set_unregistered (fn : Fn) (key : string) (cs : list Value)
    (k : string) (v : Value) (w : World) :
  tracked fn key [] cs w ->
  exists w',
    set k v w = Ok (tt, w') /\
    settings_kept w w' /\
    promises w' = promises w /\
    tracked fn key [] cs w'.
Proof.
  intros Ht.
  destruct (set_tracked fn key [] cs k v w Ht) as (w' & Hrun & Hs & Hp & Ht').
  exists w'. split; [done|]. split; [done|]. split; [done|].
  destruct (decide (k = key)), (accepts (self w) k v);
    cbn in Ht'; rewrite ?app_nil_r in Ht'; exact Ht'.
Qed.

Lemma forEach_set_unregistered (fn : Fn) (key : string) (cs : list Value)
    (g : string -> Value) (l : list string) :
  forall w : World,
    tracked fn key [] cs w ->
    exists w',
      forEach l (fun k => set k (g k)) w = Ok (tt, w') /\
      settings_kept w w' /\
      promises w' = promises w /\
      tracked fn key [] cs w'.
Proof.
  induction l as [|x l IH]; intros w Ht.
  - exists w. by split; [|split; [|split]].
  - destruct (set_unregistered fn key cs x (g x) w Ht)
      as (w1 & Hrun & Hs1 & Hp1 & Ht1).
    destruct (IH w1 Ht1) as (w' & Hrest & Hs' & Hp' & Ht').
    exists w'. split; [|split; [|split]].
    + cbn [forEach]. unfold mbind, M_bind. by rewrite Hrun.
    + by eapply settings_kept_trans.
    + congruence.
    + done.
Qed.

Lemma perform_unregistered (fn : Fn) (key : string) (cs : list Value)
    (op : Op) (w : World) :
  tracked fn key [] cs w ->
  ~ registers w op fn ->
  exists w',
    perform op w = Ok (tt, w') /\
    settings_kept w w' /\
    promises w' = (if allocates w op then S (promises w) else promises w) /\
    tracked fn key [] cs w'.
Proof.
  intros Ht Hreg. destruct op as [k v|cfg|k|k f|k f]; cbn [perform allocates].
  - apply set_unregistered, Ht.
  - unfold setConfig. destruct (isPlainObject cfg).
    + apply forEach_set_unregistered, Ht.
    + exists w. by split; [|split; [|split]].
  - destruct (onceGot_tracked fn key [] cs k w Ht Hreg)
      as (r & w' & Hrun & Hs & Hp & Ht').
    exists w'. unfold mbind, M_bind. rewrite Hrun.
    split; [done|]. split; [done|]. split; [|done].
    rewrite Hp. by destruct (defined _).
  - destruct (onGot_tracked fn key [] cs k f w Ht Hreg)
      as (u & w' & Hrun & Hs & Hp & Ht').
    exists w'. unfold mbind, M_bind. rewrite Hrun.
    by split; [|split; [|split]].
  - destruct (decide (fn = UserFn f)) as [->|Hne];
      [|by apply delWait_tracked].
    destruct Ht as (Hrs & Hother & Hcs).
    assert (forall k', registrations (UserFn f) (waiting (self w) k') = [])
      as Hnone.
    { intros k'. destruct (decide (k' = key)) as [->|]; [done|by apply Hother]. }
    destruct (delWait_effect k (UserFn f) w)
      as (w' & Hrun & Hs & _ & Hp & Htr & Hws).
    exists w'. split; [done|]. split; [done|]. split; [done|].
    assert (forall k', registrations (UserFn f) (waiting (self w') k') = [])
      as Hnone'.
    { intros k'. rewrite Hws. case_decide; [|done].
      by rewrite registrations_others, decide_True. }
    split; [done|]. split; [by intros|]. by rewrite Htr.
Qed.

(** Freshness lasts. *)
Lemma perform_fresh (op : Op) (w : World) :
  fresh w ->
  exists w',
    perform op w = Ok (tt, w') /\ settings_kept w w' /\
    promises w <= promises w' /\ fresh w'.
Proof.
  intros Hfresh.
  assert (~ registers w op (PromiseResolve (S (promises w)))) as Hreg0.
  { destruct op; cbn; try done; try tauto.
    intros [_ E]. injection E. lia. }
  destruct (perform_unregistered _ "" [] op w
              (Hfresh (S (promises w)) "" ltac:(lia)) Hreg0)
    as (w' & Hrun & Hs & Hp & _).
  exists w'. split; [done|]. split; [done|].
  split; [destruct (allocates w op); lia|].
  intros p key Hle.
  assert (~ registers w op (PromiseResolve p)) as Hreg.
  { destruct op; cbn in *; try done; try tauto.
    intros [Hd E]. injection E as ->. rewrite Hd in Hp. cbn in Hp. lia. }
  assert (promises w <= p) as Hle0 by (destruct (allocates w op); lia).
  destruct (perform_unregistered _ key [] op w (Hfresh p key Hle0) Hreg)
    as (w'' & Hrun' & _ & _ & Ht).
  rewrite Hrun in Hrun'. by injection Hrun' as <-.
Qed.

Lemma performs_fresh (ops : list Op) :
  forall w : World,
    fresh w ->
    exists w', performs ops w = Ok (tt, w') /\ settings_kept w w' /\ fresh w'.
Proof.
  induction ops as [|op ops IH]; intros w Hfresh.
  - exists w. split; [done|]. split; [by split | done].
  - destruct (perform_fresh op w Hfresh) as (w1 & Hrun & Hs1 & _ & Hf1).
    destruct (IH w1 Hf1) as (w' & Hrest & Hs' & Hf').
    exists w'. split; [|split; [by eapply settings_kept_trans | done]].
    unfold performs. cbn [forEach]. unfold mbind, M_bind. by rewrite Hrun.
Qed.


Lemma writes_kept (w w' : World) (key : string) (op : Op) :
  settings_kept w w' -> writes (self w') key op = writes (self w) key op.
Proof.
  intros Hs. destruct op as [k v|cfg|k|k f|k f]; cbn; try done.
  - by rewrite (accepts_kept w w').
  - destruct cfg; try done. by rewrite (accepts_kept w w').
Qed.

Lemma next_kept (w w' : World) (key : string) (op : Op) (st : Status) :
  settings_kept w w' -> next (self w') key op st = next (self w) key op st.
Proof. intros Hs. unfold next. by rewrite (writes_kept w w'). Qed.

Lemma set_status (p : nat) (key : string) (st : Status) (k : string)
    (v : Value) (w : World) :
  status p key st w ->
  exists w',
    set k v w = Ok (tt, w') /\
    settings_kept w w' /\
    status p key (next (self w) key (OSet k v) st) w'.
Proof.
  intros [Hlt Ht]. destruct st as [|v0].
  - destruct (set_tracked _ key _ _ k v w Ht) as (w' & Hrun & Hs & Hp & Ht').
    exists w'. split; [done|]. split; [done|]. split; [lia|].
    cbn [next writes]. destruct (decide (k = key)) as [->|Hne].
    + rewrite String.eqb_refl. cbn [andb].
      destruct (accepts (self w) key v); exact Ht'.
    + apply String.eqb_neq in Hne as ->. exact Ht'.
  - destruct (set_unregistered _ key _ k v w Ht) as (w' & Hrun & Hs & Hp & Ht').
    exists w'. split; [done|]. split; [done|]. split; [lia|]. exact Ht'.
Qed.

Lemma forEach_set_status (p : nat) (key : string) (g : string -> Value)
    (l : list string) :
  forall (st : Status) (w : World),
    status p key st w ->
    exists w',
      forEach l (fun k => set k (g k)) w = Ok (tt, w') /\
      settings_kept w w' /\
      status p key
        (match st with
         | StillPending =>
             if bool_decide (key ∈ l) && accepts (self w) key (g key)
             then ResolvedWith (g key) else StillPending
         | ResolvedWith v => ResolvedWith v
         end) w'.
Proof.
  induction l as [|x l IH]; intros st w Hst.
  - exists w. split; [done|]. split; [by split|]. by destruct st.
  - destruct (set_status p key st x (g x) w Hst) as (w1 & Hrun & Hs1 & Hst1).
    destruct (IH _ w1 Hst1) as (w' & Hrest & Hs' & Hst').
    exists w'. split; [|split; [by eapply settings_kept_trans|]].
    { cbn [forEach]. unfold mbind, M_bind. by rewrite Hrun. }
    rewrite (accepts_kept w w1) in Hst' by done.
    destruct st as [|v0]; [|exact Hst'].
    cbn [next writes] in Hst'.
    destruct (decide (x = key)) as [->|Hne].
    + rewrite String.eqb_refl in Hst'. cbn [andb] in Hst'.
      rewrite (bool_decide_eq_true_2 (key ∈ key :: l)) by apply list_elem_of_here.
      cbn [andb].
      destruct (accepts (self w) key (g key)); [exact Hst'|].
      by rewrite andb_false_r in Hst'.
    + assert (bool_decide (key ∈ x :: l) = bool_decide (key ∈ l)) as ->.
      { apply bool_decide_ext. rewrite elem_of_cons.
        split; [intros [E|E]; [by symmetry in E|done] | by right]. }
      apply String.eqb_neq in Hne. rewrite Hne in Hst'. exact Hst'.
Qed.

(** One action of a caller moves the promise as [next] says. *)
Lemma perform_status (p : nat) (key : string) (st : Status) (op : Op)
    (w : World) :
  status p key st w ->
  exists w',
    perform op w = Ok (tt, w') /\
    settings_kept w w' /\
    status p key (next (self w) key op st) w'.
Proof.
  intros Hst.
  destruct op as [k v|cfg|k|k f|k f].
  - by apply set_status.
  - cbn [perform]. unfold setConfig. destruct cfg as [| |b|n|o];
      try (exists w; split; [done|]; split; [by split|]; by destruct st).
    cbn [isPlainObject keys member].
    destruct (forEach_set_status p key (prop_get o) (map fst o) st w Hst)
      as (w' & Hrun & Hs & Hst').
    exists w'. split; [done|]. split; [done|].
    rewrite <- has_own_keys in Hst'. unfold next, writes.
    destruct st; [|done]. by destruct (_ && _).
  - assert (next (self w) key (OOnceGot k) st = st) as -> by (by destruct st).
    assert (~ registers w (OOnceGot k) (PromiseResolve p)) as Hreg.
    { intros [_ E]. injection E as ->. destruct Hst. lia. }
    destruct st as [|v0]; destruct Hst as [Hlt Ht];
      destruct (onceGot_tracked _ key _ _ k w Ht Hreg)
        as (r & w' & Hrun & Hs & Hp & Ht');
      exists w'; cbn [perform]; unfold mbind, M_bind; rewrite Hrun;
      (split; [done|]); (split; [done|]); (split; [|done]);
      rewrite Hp; destruct (defined _); lia.
  - assert (next (self w) key (OOnGot k f) st = st) as -> by (by destruct st).
    destruct st as [|v0]; destruct Hst as [Hlt Ht];
      destruct (onGot_tracked _ key _ _ k f w Ht ltac:(done))
        as (u & w' & Hrun & Hs & Hp & Ht');
      exists w'; cbn [perform]; unfold mbind, M_bind; rewrite Hrun;
      (split; [done|]); (split; [done|]); (split; [lia|done]).
  - assert (next (self w) key (OUnsubscribe k f) st = st) as ->
      by (by destruct st).
    destruct st as [|v0]; destruct Hst as [Hlt Ht];
      destruct (delWait_tracked _ key _ _ k f w Ht ltac:(done))
        as (w' & Hrun & Hs & Hp & Ht');
      exists w'; (split; [done|]); (split; [done|]); (split; [lia|done]).
Qed.

Lemma performs_status (p : nat) (key : string) (ops : list Op) :
  forall (st : Status) (w : World),
    status p key st w ->
    exists w',
      performs ops w = Ok (tt, w') /\
      settings_kept w w' /\
      status p key (foldl (fun st op => next (self w) key op st) st ops) w'.
Proof.
  induction ops as [|op ops IH]; intros st w Hst.
  - exists w. split; [done|]. split; [by split | done].
  - destruct (perform_status p key st op w Hst) as (w1 & Hrun & Hs1 & Hst1).
    destruct (IH _ w1 Hst1) as (w' & Hrest & Hs' & Hst').
    exists w'. split; [|split; [by eapply settings_kept_trans|]].
    { unfold performs. cbn [forEach]. unfold mbind, M_bind. by rewrite Hrun. }
    cbn [foldl].
    replace (foldl (fun st op => next (self w) key op st)
               (next (self w) key op st) ops)
      with (foldl (fun st op => next (self w1) key op st)
               (next (self w) key op st) ops); [done|].
    generalize (next (self w) key op st). clear -Hs1.
    induction ops as [|o ops IH]; intros s; [done|].
    cbn [foldl]. by rewrite IH, (next_kept w w1).
Qed.

Lemma foldl_next_pending (c : Configuration) (key : string) (ops : list Op) :
  Forall (fun op => writes c key op = None) ops ->
  foldl (fun st op => next c key op st) StillPending ops = StillPending.
Proof.
  induction 1 as [|op ops Hop _ IH]; [done|].
  cbn [foldl next]. by rewrite Hop.
Qed.

Lemma foldl_next_resolved (c : Configuration) (key : string) (v : Value)
    (ops : list Op) :
  foldl (fun st op => next c key op st) (ResolvedWith v) ops = ResolvedWith v.
Proof. induction ops as [|op ops IH]; [done|]. apply IH. Qed.

(** C2. With a defined value stored under the key, [onceGot] answers with a
    promise already resolved with it, and touches nothing.  Otherwise its
    promise stays pending through whatever the callers do, as long as no
    [set] of the key gets through; the first [set] of the key that does
    (by [set] or inside [setConfig]) resolves it with the value set; and
    through whatever follows, later sets of the key included, the promise's
    [resolve] has been called that one time only. *)
Theorem onceGot_promise (key : string) (w : World) :
  let current := prop_get (config (self w)) key in
  (defined current = true -> onceGot key w = Ok (Resolved current, w)) /\
  (defined current = false ->
   fresh w ->
   exists (p : nat) (w1 : World),
     onceGot key w = Ok (Pending p, w1) /\
     calls (PromiseResolve p) (trace w1) = [] /\
     forall before : list Op,
       Forall (fun op => writes (self w) key op = None) before ->
       exists w2,
         performs before w1 = Ok (tt, w2) /\
         calls (PromiseResolve p) (trace w2) = [] /\
         forall (op : Op) (v : Value) (after : list Op),
           writes (self w) key op = Some v ->
           exists w3 w4,
             perform op w2 = Ok (tt, w3) /\
             calls (PromiseResolve p) (trace w3) = [v] /\
             performs after w3 = Ok (tt, w4) /\
             calls (PromiseResolve p) (trace w4) = [v]).
Proof.
  intros current. split; [apply onceGot_defined|].
  intros Hd Hfresh.
  destruct (onceGot_undefined key w Hd) as (w1 & Hrun & Hs1 & _ & Hp1 & Ht1 & Hws1).
  assert (status (promises w) key StillPending w1) as Hst1.
  { split; [lia|]. split; [|split].
    - rewrite Hws1, decide_True by done. rewrite registrations_snoc.
      destruct (Hfresh (promises w) key ltac:(lia)) as (-> & _ & _).
      cbn. by rewrite decide_True.
    - intros k' Hk'. rewrite Hws1, decide_False by done.
      by destruct (Hfresh (promises w) key ltac:(lia)) as (_ & -> & _).
    - rewrite Ht1. by destruct (Hfresh (promises w) key ltac:(lia)) as (_ & _ & ->). }
  exists (promises w), w1. split; [done|].
  split; [by destruct Hst1 as (_ & _ & _ & ->)|].
  intros before Hbefore.
  destruct (performs_status _ key before _ w1 Hst1) as (w2 & Hrun2 & Hs2 & Hst2).
  rewrite foldl_next_pending in Hst2.
  2:{ eapply Forall_impl; [exact Hbefore|]. intros op Hop.
      by rewrite (writes_kept w w1). }
  exists w2. split; [done|]. split; [by destruct Hst2 as (_ & _ & _ & ->)|].
  intros op v after Hop.
  destruct (perform_status _ key _ op w2 Hst2) as (w3 & Hrun3 & Hs3 & Hst3).
  cbn [next] in Hst3.
  rewrite (writes_kept w1 w2), (writes_kept w w1), Hop in Hst3 by done.
  destruct (performs_status _ key after _ w3 Hst3) as (w4 & Hrun4 & Hs4 & Hst4).
  rewrite foldl_next_resolved in Hst4.
  exists w3, w4. split; [done|].
  split; [by destruct Hst3 as (_ & _ & _ & ->)|]. split; [done|].
  by destruct Hst4 as (_ & _ & _ & ->).
Qed.

(** A store as [new] leaves it knows no promise. *)
Lemma fresh_new (c : Configuration) :
  waits c = ∅ -> fresh {| self := c; trace := []; promises := 0 |}.
Proof.
  intros Hw p key _. unfold tracked, waiting. cbn. rewrite Hw.
  split; [by rewrite lookup_empty|]. split; [|done].
  intros k' _. by rewrite lookup_empty.
Qed.

End Store.

(** The sample stores in the theorems above. *)

Lemma set_strict_mode_witness :
  (exists w', set (H := Lodash.dotted) "x" (VNum 1) Samples.store = Ok (tt, w') /\
              self w' = self Samples.store /\
              has (self w') "x" = false) /\
  (exists w', set (H := Lodash.dotted) "y" (VNum 1) Samples.store = Ok (tt, w') /\
              has (self w') "y" = true).
Proof.
  split.
  - destruct (set_strict_mode (H := Lodash.dotted) "x" (VNum 1) Samples.store
                eq_refl) as [Hrej _].
    destruct (Hrej eq_refl) as (w' & Hrun & Hself & Hhas & _).
    exists w'. repeat split; [exact Hrun | exact Hself |].
    rewrite Hhas. reflexivity.
  - destruct (set_strict_mode (H := Lodash.dotted) "y" (VNum 1) Samples.store
                eq_refl) as [_ Hacc].
    destruct (Hacc eq_refl) as (w' & Hrun & _ & _ & Hhas & _).
    exists w'. split; [exact Hrun | exact (Hhas eq_refl)].
Defined.

Lemma notifyGot_order_witness :
  exists w1 w2,
    register_all "k" [ {| once := false; resolve := UserFn 1 |};
                       {| once := true; resolve := UserFn 2 |} ] Samples.store
      = Ok (tt, w1) /\
    notifyGot (H := Lodash.dotted) "k" w1 = Ok (tt, w2) /\
    trace w2 = [Call (UserFn 1) VUndefined; Call (UserFn 2) VUndefined] /\
    waiting (self w2) "k" ≡ₚ [{| once := false; resolve := UserFn 1 |}].
Proof.
  destruct (notifyGot_order (H := Lodash.dotted) "k"
              [ {| once := false; resolve := UserFn 1 |};
                {| once := true; resolve := UserFn 2 |} ] Samples.store eq_refl)
    as (w1 & w2 & Hreg & Hrun & Htr & Hkept & _).
  exists w1, w2. split; [exact Hreg|]. split; [exact Hrun|].
  split; [exact Htr | exact Hkept].
Defined.

(** C4, as the claim words it, fails: of two callbacks registered for a key,
    1 before 2, the notification calls 1, the older one, first. *)
Lemma notifyGot_newest_first_fails :
  exists w',
    (setWait "k" (UserFn 1) false;; setWait "k" (UserFn 2) false;;
     notifyGot (H := Lodash.dotted) "k") Samples.store = Ok (tt, w') /\
    trace w' = [Call (UserFn 1) VUndefined; Call (UserFn 2) VUndefined] /\
    trace w' <> [Call (UserFn 2) VUndefined; Call (UserFn 1) VUndefined].
Proof.
  eexists. split; [vm_compute; reflexivity|]. split; [reflexivity|].
  cbn. intros Heq. discriminate Heq.
Qed.

Lemma notifyGot_each_once_witness :
  exists w',
    notifyGot (H := Lodash.dotted) "k" Samples.store12 = Ok (tt, w') /\
    length (calls (UserFn 1) (trace w')) = 1 /\
    length (calls (UserFn 2) (trace w')) = 1 /\
    waiting (self w') "k" ≡ₚ [{| once := false; resolve := UserFn 1 |}].
Proof.
  destruct (notifyGot_each_once (H := Lodash.dotted) "k"
              [ {| once := false; resolve := UserFn 1 |};
                {| once := true; resolve := UserFn 2 |} ] Samples.store12 eq_refl)
    as (w' & Hrun & _ & Hcalls & Hkept & _).
  exists w'. split; [exact Hrun|].
  split; [exact (Hcalls (UserFn 1))|]. split; [exact (Hcalls (UserFn 2))|].
  exact Hkept.
Defined.

Lemma has_get_disagree_witness :
  get (H := Lodash.dotted) (self Samples.store) "a.b" VUndefined = VNum 1 /\
  has (self Samples.store) "a.b" = false.
Proof.
  exact (has_get_disagree (H := Lodash.dotted) (self Samples.store) "a.b" "a" "b"
           [("b", VNum 1)] (VNum 1) eq_refl eq_refl eq_refl eq_refl eq_refl eq_refl).
Defined.

(** A partial application: ["x"] is turned down, ["y"] is stored. *)
Lemma setConfig_partial_witness :
  setConfig (H := Lodash.dotted) (VNum 3) Samples.store = Ok (tt, Samples.store) /\
  exists w',
    setConfig (H := Lodash.dotted) (VObj [("x", VNum 1); ("y", VNum 2)])
      Samples.store = Ok (tt, w') /\
    prop_get (config (self w')) "x" = VUndefined /\
    prop_get (config (self w')) "y" = VNum 2.
Proof.
  destruct (setConfig_partial (H := Lodash.dotted)) as (Hno & _ & Hyes).
  split; [exact (Hno (VNum 3) Samples.store eq_refl)|].
  destruct (Hyes [("x", VNum 1); ("y", VNum 2)] Samples.store) as (w' & Hrun & Hcfg).
  exists w'. split; [exact Hrun|].
  split; [exact (Hcfg "x") | exact (Hcfg "y")].
Defined.

(** On the sample store: ["k"] is unset, callback 7 subscribes, and then
    ["k"] is set to 1 and to 2. *)
Lemma onGot_subscription_witness :
  exists (unsubscribe : M unit) (w1 w3 : World),
    onGot "k" 7 Samples.store = Ok (unsubscribe, w1) /\
    (set (H := Lodash.dotted) "k" (VNum 1);;
     set (H := Lodash.dotted) "k" (VNum 2)) w1 = Ok (tt, w3) /\
    calls (UserFn 7) (trace w3) = [VNum 1; VNum 2].
Proof.
  destruct (onGot_subscription (H := Lodash.dotted) "k" 7 Samples.store)
    as (unsubscribe & w1 & Hrun & _ & _ & _ & Htwo & _).
  destruct (Htwo (VNum 1) (VNum 2) eq_refl eq_refl eq_refl eq_refl)
    as (w3 & Hsets & Hcalls).
  exists unsubscribe, w1, w3. split; [exact Hrun|]. split; [exact Hsets|].
  exact Hcalls.
Defined.

(** On the sample store: ["k"] is unset; a callback subscribes to another
    key and ["x"] is turned down, and the promise is still pending; then
    ["k"] is set to 5, and later to 6. *)
Lemma onceGot_promise_witness :
  onceGot "a" Samples.store = Ok (Resolved (VObj [("b", VNum 1)]), Samples.store) /\
  exists (p : nat) (w1 w2 w3 w4 : World),
    onceGot "k" Samples.store = Ok (Pending p, w1) /\
    performs (H := Lodash.dotted) [OOnGot "j" 3; OSet "x" (VNum 1)] w1 = Ok (tt, w2) /\
    calls (PromiseResolve p) (trace w2) = [] /\
    perform (H := Lodash.dotted) (OSet "k" (VNum 5)) w2 = Ok (tt, w3) /\
    performs (H := Lodash.dotted) [OSet "k" (VNum 6)] w3 = Ok (tt, w4) /\
    calls (PromiseResolve p) (trace w4) = [VNum 5].
Proof.
  split.
  - exact (proj1 (onceGot_promise (H := Lodash.dotted) "a" Samples.store) eq_refl).
  - destruct (proj2 (onceGot_promise (H := Lodash.dotted) "k" Samples.store) eq_refl
                (fresh_new (self Samples.store) eq_refl))
      as (p & w1 & Hrun & _ & Hnext).
    assert (Forall (fun op => writes (self Samples.store) "k" op = None)
              [OOnGot "j" 3; OSet "x" (VNum 1)]) as Hquiet
      by (repeat constructor).
    destruct (Hnext _ Hquiet) as (w2 & Hbefore & Hpending & Hfire).
    destruct (Hfire (OSet "k" (VNum 5)) (VNum 5) [OSet "k" (VNum 6)] eq_refl)
      as (w3 & w4 & Hset & _ & Hafter & Hcalls).
    exists p, w1, w2, w3, w4.
    split; [exact Hrun|]. split; [exact Hbefore|]. split; [exact Hpending|].
    split; [exact Hset|]. split; [exact Hafter | exact Hcalls].
Defined.

End ConfigFacts.

(** * Properties of the renderer bootstrap *)

Module RendererFacts.
Import Renderer.

(** ** Object literals *)

Lemma own_app {A} (l1 l2 : list (string * A)) (k : string) :
  own (l1 ++ l2) k = match own l1 k with Some v => Some v | None => own l2 k end.
Proof.
  induction l1 as [|[k' v'] l1 IH]; cbn; [done|].
  by destruct (String.eqb k' k).
Qed.

(** In a literal the last definition of a property wins. *)
Lemma own_foldl_prop_set {A} (l o : list (string * A)) (k : string) :
  own (foldl (fun o kv => prop_set o kv.1 kv.2) o l) k =
    match own (reverse l) k with Some v => Some v | None => own o k end.
Proof.
  revert o. induction l as [|[k' v'] l IH]; intros o; cbn [foldl]; [done|].
  rewrite IH, reverse_cons, own_app. destruct (own (reverse l) k); [done|].
  cbn. destruct (String.eqb k' k) eqn:E.
  - apply String.eqb_eq in E as ->. apply ConfigFacts.own_prop_set_eq.
  - apply String.eqb_neq in E. by apply ConfigFacts.own_prop_set_ne.
Qed.

Lemma own_literal (l : list (string * AppValue)) (k : string) :
  own (literal l) k = own (reverse l) k.
Proof. unfold literal. rewrite own_foldl_prop_set. by destruct (own _ _). Qed.

Lemma own_keyed {A} (g : string -> A) (ks : list string) (k : string) :
  own (map (fun key => (key, g key)) ks) k =
    if bool_decide (k ∈ ks) then Some (g k) else None.
Proof.
  induction ks as [|k' ks IH]; cbn; [done|].
  destruct (String.eqb k' k) eqn:E.
  - apply String.eqb_eq in E as ->.
    by rewrite bool_decide_eq_true_2 by apply list_elem_of_here.
  - rewrite IH. apply String.eqb_neq in E.
    assert (bool_decide (k ∈ k' :: ks) = bool_decide (k ∈ ks)) as ->; [|done].
    apply bool_decide_ext. rewrite elem_of_cons.
    split; [intros [Heq|Hin]; [by symmetry in Heq|done] | by right].
Qed.

(** What [...x] contributes to a later lookup. *)
Lemma own_reverse_spread (x : Value) (k : string) :
  own (reverse (spread x)) k = AData <$> render_field x k.
Proof.
  unfold spread. rewrite <- fmap_reverse, (own_keyed (fun key => AData (member x key))).
  assert (bool_decide (k ∈ reverse (keys x)) = bool_decide (k ∈ keys x)) as ->
    by (apply bool_decide_ext, elem_of_reverse).
  destruct x as [| |b|n|o]; cbn [keys render_field member];
    try (by rewrite bool_decide_eq_false_2 by apply not_elem_of_nil).
  rewrite <- ConfigFacts.has_own_keys. unfold has_own, prop_get.
  by destruct (own o k).
Qed.

(** The properties of the application object, one by one. *)
Lemma application_own (r : RendererMain) (k : string) :
  own (props (application r)) k =
    if String.eqb "use" k
    then Some (AFunction (fun plugin => RegisterPlugin (One plugin)))
    else match render_field (renderObject r) k with
         | Some v => Some (AData v)
         | None =>
             own [("packageManager", AService PackageManagementService);
                  ("schema", AService SchemaService);
                  ("mode", AMode (mode r));
                  ("__options", AOptions (initOptions r))] k
         end.
Proof.
  unfold application, freeze. cbn [props].
  rewrite own_literal, !reverse_app, !own_app, own_reverse_spread.
  cbn [reverse rev_append own]. destruct (String.eqb "use" k); [done|].
  by destruct (render_field _ _).
Qed.

(** ** The run of a bootstrap *)

Lemma run_quiet (n : nat) (st : State) : step st = None -> run n st = st.
Proof. intros Hq. destruct n; [done|]. cbn. by rewrite Hq. Qed.

(** C6. [main] sets the phase OptionsResolved and waits for Ready, with the
    constructor's continuation the one job queued.  The run that follows calls
    the adapter, waits for its answer, stores it as the render object and only
    then sets Ready; [main] then registers the initial plugins, waits, loads
    the initial packages, waits, and sets AfterInitPackageLoad last.  The run
    ends there, and at every moment the events so far are an initial segment
    of that one sequence; so the plugins are registered after the adapter has
    answered and before the packages start to load. *)
Theorem bootstrap_order (options : AppOptions) (adapter_ : RenderAdapter) :
  let st0 := main options adapter_ constructor in
  (trace st0 = [ SchemaInitialize (schema options);
                 CodeRuntimeInitialize (coalesce (codeRuntime options) (VObj []));
                 PhaseSet OptionsResolved ] /\
   phase st0 = OptionsResolved /\
   phaseWaiters st0 = [(Ready, MainReady (default [] (plugins options)))] /\
   jobs st0 = [(CtorThen, VUndefined)] /\
   mainDone st0 = false) /\
  (trace (run 8 st0) = main_events options adapter_ /\
   step (run 8 st0) = None /\
   mainDone (run 8 st0) = true /\
   phase (run 8 st0) = AfterInitPackageLoad /\
   main_ (run 8 st0) = bootstrapped options adapter_) /\
  (forall n, trace (run n st0) `prefix_of` main_events options adapter_) /\
  (forall n, In (Start (RegisterPlugin (Many (default [] (plugins options)))))
                (trace (run n st0)) ->
             In (Settle (Adapter renderContext)) (trace (run n st0)) /\
             In (PhaseSet Ready) (trace (run n st0))) /\
  (forall n, In (Start (LoadPackages (default [] (packages options))))
                (trace (run n st0)) ->
             In (Settle (RegisterPlugin (Many (default [] (plugins options)))))
                (trace (run n st0))).
Proof.
  intros st0.
  assert (forall n, 8 <= n -> run n st0 = run 8 st0) as Hlate.
  { intros n Hn. replace n with (8 + (n - 8)) by lia.
    generalize (n - 8). intros m. subst st0.
    destruct options as [sch [m0|] pl cr pk]; destruct m; vm_compute; reflexivity. }
  split; [|split; [|split; [|split]]].
  - subst st0. destruct options as [sch [m0|] pl cr pk]; vm_compute; by repeat split.
  - subst st0. destruct options as [sch [m0|] pl cr pk]; vm_compute; by repeat split.
  - intros n. destruct (decide (8 <= n)) as [Hn|Hn].
    + rewrite Hlate by done. subst st0.
      destruct options as [sch [m0|] pl cr pk]; exists []; vm_compute; reflexivity.
    + subst st0. destruct options as [sch [m0|] pl cr pk];
        do 8 (destruct n as [|n]; [eexists; vm_compute; reflexivity|]); lia.
  - intros n. destruct (decide (8 <= n)) as [Hn|Hn].
    + rewrite Hlate by done. intros _. subst st0.
      destruct options as [sch [m0|] pl cr pk]; vm_compute; auto 20.
    + subst st0. destruct options as [sch [m0|] pl cr pk];
        do 8 (destruct n as [|n];
              [vm_compute; intuition (try discriminate; auto 20)|]); lia.
  - intros n. destruct (decide (8 <= n)) as [Hn|Hn].
    + rewrite Hlate by done. intros _. subst st0.
      destruct options as [sch [m0|] pl cr pk]; vm_compute; auto 20.
    + subst st0. destruct options as [sch [m0|] pl cr pk];
        do 8 (destruct n as [|n];
              [vm_compute; intuition (try discriminate; auto 20)|]); lia.
Qed.

(** ** The application object *)

(** C7, as the code has it.  [getApp] waits: below AfterInitPackageLoad it
    only registers its continuation, which the setter of that phase releases;
    resumed, it delivers the frozen application object.  In that object [use]
    is always the function handing its plugin to [registerPlugin]; every field
    of the adapter's render object not named [use] is there with its value;
    and [mode], [schema] and [packageManager] hold the instance's mode
    (production unless the options gave one) and the two service handles,
    unless the render object has a field of that name, which then takes the
    place.  An assignment to the object changes nothing. *)
Theorem getApp_application :
  (forall st : State,
     rank (phase st) < rank AfterInitPackageLoad ->
     apps (getApp st) = apps st /\
     jobs (getApp st) = jobs st /\
     phaseWaiters (getApp st) =
       phaseWaiters st ++ [(AfterInitPackageLoad, GetAppLoaded)] /\
     jobs (set_phase AfterInitPackageLoad (getApp st)) =
       jobs st ++
       map (fun w => (w.2, VUndefined)) (phaseWaiters st) ++
       [(GetAppLoaded, VUndefined)]) /\
  (forall st : State,
     phase st = AfterInitPackageLoad ->
     jobs (getApp st) = jobs st ++ [(GetAppLoaded, VUndefined)]) /\
  (forall (st : State) (v : Value),
     apps (resume GetAppLoaded v st) = apps st ++ [application (main_ st)]) /\
  (forall r : RendererMain,
     let app := application r in
     frozen app = true /\
     (forall k v, assign app k v = app) /\
     own (props app) "use" =
       Some (AFunction (fun plugin => RegisterPlugin (One plugin))) /\
     (forall k v, k <> "use" -> render_field (renderObject r) k = Some v ->
                  own (props app) k = Some (AData v)) /\
     (render_field (renderObject r) "mode" = None ->
      own (props app) "mode" = Some (AMode (mode r))) /\
     (render_field (renderObject r) "schema" = None ->
      own (props app) "schema" = Some (AService SchemaService)) /\
     (render_field (renderObject r) "packageManager" = None ->
      own (props app) "packageManager" = Some (AService PackageManagementService))) /\
  (forall (options : AppOptions) (adapter_ : RenderAdapter),
     let st := run 10 (bootstrap adapter_ options constructor) in
     apps st = [application (bootstrapped options adapter_)] /\
     step st = None /\
     mode (bootstrapped options adapter_) = default Production (opt_mode options)).
Proof.
  split; [|split; [|split; [|split]]].
  - intros st Hlt. unfold getApp, when.
    assert ((rank AfterInitPackageLoad <=? rank (phase st))%nat = false) as ->
      by (apply Nat.leb_gt; lia).
    cbn. repeat split; try done.
    rewrite filter_app, map_app.
    assert (forall l : list (LifecyclePhase * Cont),
              filter (fun w => (rank w.1 <=? 3)%nat = true) l = l) as Hall.
    { intros l. induction l as [|[[] k] l IH]; [done|..];
        rewrite filter_cons_True by done; by rewrite IH. }
    rewrite Hall. by rewrite filter_cons_True by done.
  - intros st Hp. unfold getApp, when. by rewrite Hp.
  - done.
  - intros r app. subst app. split; [done|]. split; [done|].
    split; [by rewrite application_own|].
    split; [|split; [|split]].
    + intros k v Hk Hv. rewrite application_own.
      assert (String.eqb "use" k = false) as ->
        by (apply String.eqb_neq; by intros <-).
      by rewrite Hv.
    + intros Hv. by rewrite application_own, Hv.
    + intros Hv. by rewrite application_own, Hv.
    + intros Hv. by rewrite application_own, Hv.
  - intros options adapter_ st. subst st.
    destruct options as [sch [m0|] pl cr pk]; vm_compute; by repeat split.
Qed.

(** The bootstrap of the end-to-end example: the adapter answers
    [{ foo: 1 }], the options name no mode. *)
Lemma getApp_application_witness :
  let app := application (bootstrapped Samples.options Samples.foo_adapter) in
  apps (run 10 (bootstrap Samples.foo_adapter Samples.options constructor)) = [app] /\
  own (props app) "foo" = Some (AData (VNum 1)) /\
  own (props app) "mode" = Some (AMode Production) /\
  assign app "foo" (AData (VNum 2)) = app.
Proof.
  destruct getApp_application as (_ & _ & _ & Happ & Hrun).
  destruct (Hrun Samples.options Samples.foo_adapter) as (Happs & _ & _).
  destruct (Happ (bootstrapped Samples.options Samples.foo_adapter))
    as (_ & Hassign & _ & Hfield & Hmode & _).
  split; [exact Happs|].
  split; [apply Hfield; [discriminate | reflexivity]|].
  split; [exact (Hmode eq_refl) | apply Hassign].
Defined.

(** C7, as the claim words it, fails for a render object with fields named
    [use] and [mode]: the application object has neither that [use] field nor
    the instance's mode. *)
Lemma getApp_render_object_clash :
  let app := application (bootstrapped Samples.options Samples.clashing_adapter) in
  apps (run 10 (bootstrap Samples.clashing_adapter Samples.options constructor))
    = [app] /\
  render_field (Samples.clashing_adapter renderContext) "use" = Some (VNum 1) /\
  own (props app) "use" <> Some (AData (VNum 1)) /\
  own (props app) "mode" <> Some (AMode Production).
Proof.
  split; [vm_compute; reflexivity|]. split; [reflexivity|].
  split; vm_compute; intros E; discriminate E.
Qed.

(** ** Preconditions *)

(** C8. [createRenderer] with an adapter that is no function throws at once:
    no instance is made and no function is returned.  [new Configuration]
    without a config throws at once, and so does it with a validator supplied
    (truthy) that is no function. *)
Theorem construction_preconditions :
  (forall v : Value,
     createRenderer (NotFunction v) =
       Throw "The first parameter must be a function.") /\
  (forall options : option Config.ConfigurationOptions,
     Config.new None options = Throw "config must exist") /\
  (forall (cfg : Obj) (strict : option bool) (v : Value),
     truthy v = true ->
     Config.new (Some cfg)
       (Some {| Config.opt_strictMode := strict;
                Config.opt_setterValidator := Some (NotFunction v) |}) =
       Throw "setterValidator must be a function").
Proof.
  split; [done|]. split; [done|].
  intros cfg strict v Hv. unfold Config.new. cbn. by rewrite Hv.
Qed.

Lemma construction_preconditions_witness :
  createRenderer (NotFunction (VNum 3)) =
    Throw "The first parameter must be a function." /\
  Config.new None None = Throw "config must exist" /\
  Config.new (Some []) (Some {| Config.opt_strictMode := None;
                                Config.opt_setterValidator :=
                                  Some (NotFunction (VNum 3)) |}) =
    Throw "setterValidator must be a function".
Proof.
  destruct construction_preconditions as (Hadapter & Hconfig & Hvalidator).
  split; [exact (Hadapter (VNum 3))|].
  split; [exact (Hconfig None) | exact (Hvalidator [] None (VNum 3) eq_refl)].
Defined.

End RendererFacts.

(** * More on the configuration store *)

Module StoreFacts.
Import Config ConfigFacts.

Section Store.
Context `{Lodash.PathSyntax}.

(** ** Reading *)

(** On a key lodash takes literally, [get] reads [config[key]]. *)
Lemma get_literal (c : Configuration) (key : string) (d : Value) :
  Lodash.isKey key (VObj (config c)) = true ->
  get c key d =
    if defined (prop_get (config c) key) then prop_get (config c) key else d.
Proof.
  intros Hk. unfold get, Lodash.get, Lodash.baseGet, Lodash.castPath.
  by rewrite Hk.
Qed.

Lemma has_is_own (c : Configuration) (key : string) :
  has c key = true -> has_own (config c) key = true.
Proof.
  unfold has, prop_get, has_own. by destruct (own (config c) key).
Qed.

(** X1. Where [has] answers [true], [get] returns that very value, whatever
    the key looks like; and on a key without path syntax that [has] denies,
    [get] returns the default. *)
Theorem get_agrees_with_has (c : Configuration) (key : string) (d : Value) :
  (has c key = true -> get c key d = prop_get (config c) key) /\
  (Lodash.reIsDeepProp key = false -> has c key = false -> get c key d = d).
Proof.
  split.
  - intros Hhas. rewrite get_literal.
    + unfold has in Hhas. by rewrite Hhas.
    + unfold Lodash.isKey. by rewrite (has_is_own c key Hhas), orb_true_r.
  - intros Hplain Hhas. rewrite get_literal.
    + unfold has in Hhas. by rewrite Hhas.
    + unfold Lodash.isKey. by rewrite Hplain.
Qed.

(** ** Writing *)

(** X2. After a [set] that gets through, [get] of the key returns the value
    (the default for [undefined]) and [has] tells whether it is defined; the
    other literal keys read as before, through [has] and, for keys without
    path syntax, through [get]; and with nobody waiting for the key, nothing
    is called and [#waits] is left alone. *)
Theorem set_then_read (key : string) (value : Value) (w : World) :
  accepts (self w) key value = true ->
  exists w',
    set key value w = Ok (tt, w') /\
    (forall d, get (self w') key d = if defined value then value else d) /\
    has (self w') key = defined value /\
    (forall k', k' <> key -> has (self w') k' = has (self w) k') /\
    (forall k' d, k' <> key -> Lodash.reIsDeepProp k' = false ->
                  get (self w') k' d = get (self w) k' d) /\
    (waits (self w) !! key = None ->
     trace w' = trace w /\ waits (self w') = waits (self w)).
Proof.
  intros Ha.
  destruct (set_effect key value w) as (w' & Hrun & _ & _ & Hyes & _).
  destruct (Hyes Ha) as (Hcfg & Htr & Hws).
  assert (forall k', prop_get (config (self w')) k' =
                     if decide (k' = key) then value
                     else prop_get (config (self w)) k') as Hread
    by (intros k'; by rewrite Hcfg, prop_get_set).
  assert (forall c k d, Lodash.reIsDeepProp k = false ->
            get c k d = if defined (prop_get (config c) k)
                        then prop_get (config c) k else d) as Hplain.
  { intros c k d Hk. apply get_literal. unfold Lodash.isKey. by rewrite Hk. }
  exists w'. split; [done|]. split; [|split; [|split; [|split]]].
  - intros d. rewrite get_literal.
    + by rewrite Hread, decide_True.
    + unfold Lodash.isKey, has_own. by rewrite Hcfg, own_prop_set_eq, orb_true_r.
  - unfold has. by rewrite Hread, decide_True.
  - intros k' Hne. unfold has. by rewrite Hread, decide_False.
  - intros k' d Hne Hk. rewrite !Hplain by done. by rewrite Hread, decide_False.
  - intros Hnone. rewrite set_accepted in Hrun by done.
    rewrite notifyGot_none in Hrun by done.
    injection Hrun as <-. done.
Qed.

(** X3. Outside strict mode every [set] is stored, whatever the validator
    would say: the value is written, the waiters of the key are called with
    it, and no warning is logged. *)
Theorem set_non_strict (key : string) (value : Value) (w : World) :
  strictMode (self w) = false ->
  exists w',
    set key value w = Ok (tt, w') /\
    config (self w') = prop_set (config (self w)) key value /\
    trace w' = trace w ++ fired value (waiting (self w) key) /\
    strictMode (self w') = false.
Proof.
  intros Hs.
  assert (accepts (self w) key value = true) as Ha
    by (unfold accepts; by rewrite Hs).
  destruct (set_effect key value w) as (w' & Hrun & [Hk _] & _ & Hyes & _).
  destruct (Hyes Ha) as (Hcfg & Htr & _).
  exists w'. repeat split; try done. by rewrite Hk.
Qed.

(** ** Construction *)

(** X4. [new Configuration(config, options)] with a config returns a store
    exactly when the options carry no validator that is truthy and no
    function.  The store then holds the config given and no waiter; it is
    strict unless [options.strictMode] is [false]; it uses the validator
    function given, and without one (none, or a falsy value in its place) it
    lets every [set] through. *)
Theorem new_store (cfg : Obj) (options : option ConfigurationOptions) :
  (bad_validator options = true ->
   new (Some cfg) options = Throw "setterValidator must be a function") /\
  (bad_validator options = false ->
   exists c,
     new (Some cfg) options = Ok c /\
     config c = cfg /\
     waits c = ∅ /\
     strictMode c =
       match options ≫= opt_strictMode with Some false => false | _ => true end /\
     match validator_of options with
     | Some f => setterValidator c = f
     | None => forall k v, accepts c k v = true
     end).
Proof.
  unfold bad_validator, validator_of, new. cbn.
  destruct (options ≫= opt_setterValidator) as [[f|v]|]; cbn.
  - split; [done|]. intros _. eexists. by repeat split.
  - destruct (truthy v) eqn:Hv; cbn; split; try done.
    intros _. eexists. repeat split; try done.
    intros k x. unfold accepts. cbn. apply orb_true_r.
  - split; [done|]. intros _. eexists. repeat split; try done.
    intros k x. unfold accepts. cbn. apply orb_true_r.
Qed.

(** ** What no sequence of calls does *)

Lemma follows_refl (w : World) : follows w w.
Proof. by repeat split. Qed.

Lemma follows_trans (w1 w2 w3 : World) :
  follows w1 w2 -> follows w2 w3 -> follows w1 w3.
Proof.
  intros (Hs1 & Ht1 & Hp1 & Hy1) (Hs2 & Ht2 & Hp2 & Hy2).
  split; [by eapply settings_kept_trans|].
  split; [by etrans|]. split; [lia|]. auto.
Qed.

Lemma tidy_insert (c : Configuration) (k : string) (l : list WaitEntry) :
  tidy c -> l <> [] -> tidy (with_waits (<[k := l]> (waits c)) c).
Proof.
  intros Hc Hl k'. cbn. destruct (decide (k' = k)) as [->|Hne].
  - rewrite lookup_insert_eq. by intros [= ->].
  - rewrite lookup_insert_ne by done. apply Hc.
Qed.

Lemma tidy_delete (c : Configuration) (k : string) :
  tidy c -> tidy (with_waits (delete k (waits c)) c).
Proof.
  intros Hc k'. cbn. destruct (decide (k' = k)) as [->|Hne].
  - by rewrite lookup_delete_eq.
  - rewrite lookup_delete_ne by done. apply Hc.
Qed.

Lemma notifyGot_follows (key : string) (w : World) :
  exists w', notifyGot key w = Ok (tt, w') /\ follows w w'.
Proof.
  destruct (waits (self w) !! key) as [ws|] eqn:Hk.
  - eexists. split; [by apply notifyGot_some|].
    split; [done|]. split; [by apply prefix_app_r|]. split; [done|].
    cbn. intros Ht. destruct (persistent ws) as [|e l] eqn:Hp.
    + by apply tidy_delete.
    + apply tidy_insert; [done|]. intros Hnil.
      apply (f_equal length) in Hnil. by rewrite length_reverse in Hnil.
  - exists w. split; [by apply notifyGot_none | apply follows_refl].
Qed.

Lemma setWait_follows (key : string) (fn : Fn) (o : bool) (w : World) :
  exists w', setWait key fn o w = Ok (tt, w') /\ follows w w'.
Proof.
  eexists. split; [apply setWait_spec|].
  split; [done|]. split; [done|]. split; [done|].
  cbn. intros Ht. apply tidy_insert; [done|]. by destruct (waiting (self w) key).
Qed.

Lemma delWait_follows (key : string) (fn : Fn) (w : World) :
  exists w', delWait key fn w = Ok (tt, w') /\ follows w w'.
Proof.
  destruct (waits (self w) !! key) as [ws|] eqn:Hk.
  - eexists. split; [by apply delWait_some|].
    split; [done|]. split; [done|]. split; [done|].
    cbn. intros Ht. destruct (others fn ws) as [|e l] eqn:Hp.
    + by apply tidy_delete.
    + by apply tidy_insert.
  - exists w. split; [by apply delWait_none | apply follows_refl].
Qed.

Lemma set_follows (key : string) (value : Value) (w : World) :
  exists w', set key value w = Ok (tt, w') /\ follows w w'.
Proof.
  destruct (accepts (self w) key value) eqn:Ha.
  - rewrite set_accepted by done.
    edestruct notifyGot_follows as (w' & -> & Hf).
    exists w'. split; [done|].
    eapply follows_trans; [|exact Hf]. by repeat split.
  - rewrite set_rejected by done. eexists. split; [done|].
    split; [done|]. split; [by apply prefix_app_r|]. by split.
Qed.

Lemma forEach_follows {A} (f : A -> M unit) (l : list A) :
  (forall x w, exists w', f x w = Ok (tt, w') /\ follows w w') ->
  forall w, exists w', forEach l f w = Ok (tt, w') /\ follows w w'.
Proof.
  intros Hf. induction l as [|x l IH]; intros w.
  - exists w. split; [done | apply follows_refl].
  - destruct (Hf x w) as (w1 & Hrun & H1). destruct (IH w1) as (w' & Hrest & H').
    exists w'. split; [|by eapply follows_trans].
    cbn [forEach]. unfold mbind, M_bind. by rewrite Hrun.
Qed.

Lemma perform_follows (op : Op) (w : World) :
  exists w', perform op w = Ok (tt, w') /\ follows w w'.
Proof.
  destruct op as [k v|cfg|k|k f|k f]; cbn [perform].
  - apply set_follows.
  - unfold setConfig. destruct (isPlainObject cfg).
    + apply forEach_follows. intros x w0. apply set_follows.
    + exists w. split; [done | apply follows_refl].
  - unfold onceGot, mbind, M_bind, this, newPromise. cbn.
    destruct (defined _).
    + exists w. split; [done | apply follows_refl].
    + edestruct setWait_follows as (w' & -> & Hf). exists w'. split; [done|].
      eapply follows_trans; [|exact Hf].
      split; [done|]. split; [done|]. split; [cbn; lia | done].
  - unfold onGot, mbind, M_bind, this, invoke, emit. cbn.
    destruct (defined _).
    + edestruct setWait_follows as (w' & -> & Hf). exists w'. split; [done|].
      eapply follows_trans; [|exact Hf].
      split; [done|]. split; [by apply prefix_app_r|]. by split.
    + cbn. edestruct setWait_follows as (w' & -> & Hf). by exists w'.
  - apply delWait_follows.
Qed.

Lemma performs_follows (ops : list Op) (w : World) :
  exists w', performs ops w = Ok (tt, w') /\ follows w w'.
Proof. apply forEach_follows. intros x w0. apply perform_follows. Qed.

Lemma others_registrations (fn : Fn) (ws : list WaitEntry) :
  others fn (registrations fn ws) = [].
Proof.
  unfold others, registrations. induction ws as [|e ws IH]; [done|].
  rewrite filter_cons. destruct (decide (resolve e = fn)) as [He|He]; [|done].
  rewrite filter_cons, decide_False; [done|]. by intros Hn.
Qed.

(** X5. No sequence of calls a caller can make ([set], [setConfig], [onceGot],
    [onGot], unsubscribing) throws; none changes whether the store is strict
    or which validator it asks; and what has been called or logged stays on
    record, in order. *)
Theorem performs_returns (ops : list Op) (w : World) :
  exists w',
    performs ops w = Ok (tt, w') /\
    strictMode (self w') = strictMode (self w) /\
    setterValidator (self w') = setterValidator (self w) /\
    trace w `prefix_of` trace w' /\
    promises w <= promises w'.
Proof.
  destruct (performs_follows ops w) as (w' & Hrun & [Hs Hv] & Ht & Hp & _).
  by exists w'.
Qed.

(** X6. [#waits] never keeps an empty list: a new store has none, and
    [setWait], [notifyGot], [delWait] and every sequence of a caller's calls
    leave none behind (a key whose last waiter goes loses its entry). *)
Theorem waits_stay_tidy :
  (forall cfg options c, new cfg options = Ok c -> tidy c) /\
  (forall w : World,
     tidy (self w) ->
     (forall key fn o, exists w',
        setWait key fn o w = Ok (tt, w') /\ tidy (self w')) /\
     (forall key, exists w',
        notifyGot key w = Ok (tt, w') /\ tidy (self w')) /\
     (forall key fn, exists w',
        delWait key fn w = Ok (tt, w') /\ tidy (self w') /\
        (registrations fn (waiting (self w) key) = waiting (self w) key ->
         waits (self w') !! key = None)) /\
     (forall ops, exists w',
        performs ops w = Ok (tt, w') /\ tidy (self w'))).
Proof.
  split.
  - intros [cfg|] options c; [|done]. unfold new. cbn.
    destruct (options ≫= opt_setterValidator) as [[f|v]|]; cbn.
    + intros [= <-] k. cbn. by rewrite lookup_empty.
    + destruct (truthy v); cbn; [done|]. intros [= <-] k. cbn.
      by rewrite lookup_empty.
    + intros [= <-] k. cbn. by rewrite lookup_empty.
  - intros w Ht. split; [|split; [|split]].
    + intros key fn o.
      destruct (setWait_follows key fn o w) as (w' & Hrun & _ & _ & _ & Hy).
      exists w'. auto.
    + intros key.
      destruct (notifyGot_follows key w) as (w' & Hrun & _ & _ & _ & Hy).
      exists w'. auto.
    + intros key fn.
      destruct (delWait_follows key fn w) as (w' & Hrun & _ & _ & _ & Hy).
      exists w'. split; [done|]. split; [auto|].
      intros Hall. destruct (waits (self w) !! key) as [ws|] eqn:Hk.
      * rewrite (delWait_some key fn ws) in Hrun by done.
        injection Hrun as <-. cbn.
        assert (others fn ws = []) as ->; [|by rewrite lookup_delete_eq].
        unfold waiting in Hall. rewrite Hk in Hall. cbn in Hall.
        rewrite <- Hall. apply others_registrations.
      * rewrite delWait_none in Hrun by done. by injection Hrun as <-.
    + intros ops.
      destruct (performs_follows ops w) as (w' & Hrun & _ & _ & _ & Hy).
      exists w'. auto.
Qed.

(** ** Notifications, one after the other *)

Lemma persistent_twice (ws : list WaitEntry) :
  persistent (persistent ws) = persistent ws.
Proof.
  unfold persistent. rewrite list_filter_filter. apply list_filter_iff. tauto.
Qed.

Lemma persistent_reverse (ws : list WaitEntry) :
  persistent (reverse ws) = reverse (persistent ws).
Proof. unfold persistent. apply filter_reverse. Qed.

(** X7. Two notifications in a row call the lasting waiters in opposite
    orders: the first goes through the stored list from first to last and
    stores what it keeps reversed, so the second goes through the kept
    waiters from last to first; after it the kept waiters are stored in their
    first order again. *)
Theorem notifyGot_twice (key : string) (ws : list WaitEntry) (w : World) :
  waits (self w) !! key = Some ws ->
  exists w',
    (notifyGot key;; notifyGot key) w = Ok (tt, w') /\
    trace w' =
      trace w ++ fired (get (self w) key VUndefined) ws
              ++ fired (get (self w) key VUndefined) (reverse (persistent ws)) /\
    waits (self w') =
      match persistent ws with
      | [] => delete key (waits (self w))
      | _ => <[key := persistent ws]> (waits (self w))
      end.
Proof.
  intros Hk. unfold mbind, M_bind. rewrite (notifyGot_some key ws) by done.
  destruct (persistent ws) as [|e l] eqn:Hp.
  - rewrite notifyGot_none by (cbn; by rewrite lookup_delete_eq).
    eexists. split; [done|]. cbn. by rewrite app_nil_r.
  - rewrite (notifyGot_some key (reverse (e :: l)))
      by (cbn; by rewrite lookup_insert_eq).
    eexists. split; [done|]. cbn [self trace with_waits waits].
    rewrite persistent_reverse, <- Hp, persistent_twice, Hp, reverse_involutive.
    split; [by rewrite <- app_assoc|].
    destruct (reverse (e :: l)) as [|e' l'] eqn:Hrev.
    + apply (f_equal length) in Hrev. by rewrite length_reverse in Hrev.
    + by rewrite insert_insert_eq.
Qed.

(** ** Promises and subscriptions *)

(** X8. Two [onceGot] calls for an unset key give two different promises;
    the next [set] of the key that gets through resolves both with the value
    set, the one asked for first being resolved first, after the waiters
    that were there before; and neither stays registered. *)
Theorem onceGot_twice (key : string) (value : Value) (w : World) :
  defined (prop_get (config (self w)) key) = false ->
  accepts (self w) key value = true ->
  exists (p1 p2 : nat) (w' : World),
    (a ← onceGot key; b ← onceGot key; set key value;; mret (a, b)) w =
      Ok ((Pending p1, Pending p2), w') /\
    p1 <> p2 /\
    trace w' =
      trace w ++ fired value (waiting (self w) key)
              ++ [Call (PromiseResolve p1) value; Call (PromiseResolve p2) value] /\
    waiting (self w') key = reverse (persistent (waiting (self w) key)).
Proof.
  intros Hd Ha.
  destruct (onceGot_undefined key w Hd) as (w1 & Hrun1 & Hs1 & Hc1 & Hp1 & Ht1 & Hw1).
  assert (defined (prop_get (config (self w1)) key) = false) as Hd1
    by (by rewrite Hc1).
  destruct (onceGot_undefined key w1 Hd1)
    as (w2 & Hrun2 & Hs2 & Hc2 & Hp2 & Ht2 & Hw2).
  assert (accepts (self w2) key value = true) as Ha2
    by (by rewrite (accepts_kept w1 w2), (accepts_kept w w1)).
  destruct (set_effect key value w2) as (w3 & Hrun3 & _ & _ & Hyes & _).
  destruct (Hyes Ha2) as (_ & Ht3 & Hw3).
  exists (promises w), (promises w1), w3. split; [|split; [lia|split]].
  - unfold mbind, M_bind. by rewrite Hrun1, Hrun2, Hrun3.
  - rewrite Ht3, Ht2, Ht1, Hw2, decide_True, Hw1, decide_True by done.
    unfold fired. rewrite !map_app. cbn. by rewrite <- !app_assoc.
  - rewrite Hw3, decide_True, Hw2, decide_True, Hw1, decide_True by done.
    unfold persistent. rewrite !filter_app. cbn. by rewrite !app_nil_r.
Qed.

(** X9. After a [set] that gets through with a defined value, [onceGot] of
    the key answers at once with that value and registers nothing, and
    [onGot] calls its callback at once with it.  After one with [undefined],
    the key counts as unset: [onceGot] registers a new pending promise and
    [onGot] calls nothing. *)
Theorem set_then_subscribe (key : string) (value : Value) (w : World) :
  accepts (self w) key value = true ->
  exists w1,
    set key value w = Ok (tt, w1) /\
    (defined value = true ->
     onceGot key w1 = Ok (Resolved value, w1) /\
     forall fn, exists u w2,
       onGot key fn w1 = Ok (u, w2) /\
       trace w2 = trace w1 ++ [Call (UserFn fn) value]) /\
    (defined value = false ->
     (exists w2,
        onceGot key w1 = Ok (Pending (promises w1), w2) /\
        waiting (self w2) key =
          waiting (self w1) key ++ [promise_entry (promises w1)]) /\
     forall fn, exists u w2,
       onGot key fn w1 = Ok (u, w2) /\ trace w2 = trace w1).
Proof.
  intros Ha.
  destruct (set_effect key value w) as (w1 & Hrun & _ & _ & Hyes & _).
  destruct (Hyes Ha) as (Hcfg & _ & _).
  assert (prop_get (config (self w1)) key = value) as Hv
    by (rewrite Hcfg, prop_get_set; by rewrite decide_True).
  exists w1. split; [done|]. split.
  - intros Hd. split.
    + rewrite onceGot_defined by (by rewrite Hv). by rewrite Hv.
    + intros fn.
      destruct (onGot_effect key fn w1) as (w2 & Hgot & _ & _ & _ & Ht & _).
      rewrite Hv, Hd in Ht. by eexists _, w2.
  - intros Hd. split.
    + destruct (onceGot_undefined key w1) as (w2 & Hgot & _ & _ & _ & _ & Hw);
        [by rewrite Hv|].
      exists w2. split; [done|]. by rewrite Hw, decide_True.
    + intros fn.
      destruct (onGot_effect key fn w1) as (w2 & Hgot & _ & _ & _ & Ht & _).
      rewrite Hv, Hd, app_nil_r in Ht. by eexists _, w2.
Qed.

(** X10. A callback subscribed twice to a key is cancelled altogether by
    the unsubscribe function of the first subscription alone: no registration
    of it is left under the key, and a later [set] of the key does not call
    it. *)
Theorem unsubscribe_cancels_all (key : string) (fn : nat) (w : World) :
  exists (u1 u2 : M unit) (w1 w2 w3 : World),
    onGot key fn w = Ok (u1, w1) /\
    onGot key fn w1 = Ok (u2, w2) /\
    length (registrations (UserFn fn) (waiting (self w2) key)) =
      2 + length (registrations (UserFn fn) (waiting (self w) key)) /\
    u1 w2 = Ok (tt, w3) /\
    registrations (UserFn fn) (waiting (self w3) key) = [] /\
    forall value,
      accepts (self w) key value = true ->
      exists w4,
        set key value w3 = Ok (tt, w4) /\
        calls (UserFn fn) (trace w4) = calls (UserFn fn) (trace w3).
Proof.
  destruct (onGot_effect key fn w) as (w1 & Hrun1 & Hs1 & _ & _ & _ & Hw1).
  destruct (onGot_effect key fn w1) as (w2 & Hrun2 & Hs2 & _ & _ & _ & Hw2).
  destruct (delWait_effect key (UserFn fn) w2) as (w3 & Hrun3 & Hs3 & _ & _ & _ & Hw3).
  assert (registrations (UserFn fn) (waiting (self w3) key) = []) as Hnone
    by (by rewrite Hw3, decide_True, registrations_others, decide_True).
  exists (delWait key (UserFn fn)), (delWait key (UserFn fn)), w1, w2, w3.
  split; [done|]. split; [done|]. split; [|split; [done|split; [done|]]].
  - rewrite Hw2, decide_True, Hw1, decide_True by done.
    rewrite !registrations_snoc. cbn. rewrite !decide_True by done.
    rewrite !length_app. cbn. lia.
  - intros value Ha.
    assert (accepts (self w3) key value = true) as Ha3
      by (by rewrite (accepts_kept w2 w3), (accepts_kept w1 w2), (accepts_kept w w1)).
    destruct (set_calls key value (UserFn fn) w3 Ha3) as (w4 & Hset & _ & Hc & _).
    exists w4. split; [done|]. by rewrite Hc, Hnone, app_nil_r.
Qed.

(** ** [setConfig] and the waiters *)

Lemma forEach_set_lasting (fn : Fn) (key : string) (g : string -> Value)
    (l : list string) :
  NoDup l ->
  forall (rs : list WaitEntry) (cs : list Value) (w : World),
    tracked fn key rs cs w ->
    persistent rs = rs ->
    exists w',
      forEach l (fun k => set k (g k)) w = Ok (tt, w') /\
      settings_kept w w' /\
      tracked fn key
        (if bool_decide (key ∈ l) && accepts (self w) key (g key)
         then reverse rs else rs)
        (if bool_decide (key ∈ l) && accepts (self w) key (g key)
         then cs ++ map (fun _ => g key) rs else cs) w'.
Proof.
  induction 1 as [|x l Hx Hl IH]; intros rs cs w Ht Hrs.
  - exists w. split; [done|]. split; [by split | done].
  - destruct (set_tracked fn key rs cs x (g x) w Ht) as (w1 & Hrun & Hs1 & _ & Ht1).
    rewrite Hrs in Ht1.
    destruct (decide (x = key)) as [->|Hne].
    + rewrite (bool_decide_eq_true_2 (key ∈ key :: l)) by apply list_elem_of_here.
      cbn [andb].
      assert (bool_decide (key ∈ l) = false) as Hnot
        by (by apply bool_decide_eq_false_2).
      destruct (accepts (self w) key (g key)) eqn:Ha.
      * destruct (IH _ _ w1 Ht1) as (w' & Hrest & Hs' & Ht');
          [by rewrite persistent_reverse, Hrs|].
        rewrite Hnot in Ht'. cbn [andb] in Ht'.
        exists w'. split; [|split; [by eapply settings_kept_trans | done]].
        cbn [forEach]. unfold mbind, M_bind. by rewrite Hrun.
      * destruct (IH _ _ w1 Ht1 Hrs) as (w' & Hrest & Hs' & Ht').
        rewrite Hnot in Ht'. cbn [andb] in Ht'.
        exists w'. split; [|split; [by eapply settings_kept_trans | done]].
        cbn [forEach]. unfold mbind, M_bind. by rewrite Hrun.
    + destruct (IH _ _ w1 Ht1 Hrs) as (w' & Hrest & Hs' & Ht').
      rewrite (accepts_kept w w1) in Ht' by done.
      assert (bool_decide (key ∈ x :: l) = bool_decide (key ∈ l)) as ->.
      { apply bool_decide_ext. split; [|by apply list_elem_of_further].
        intros [Heq|Hin]%elem_of_cons; [by symmetry in Heq | done]. }
      exists w'. split; [|split; [by eapply settings_kept_trans | done]].
      cbn [forEach]. unfold mbind, M_bind. by rewrite Hrun.
Qed.

(** X11. [setConfig] notifies like the sets it is made of: a function with
    lasting registrations under one key only is called by [setConfig(obj)]
    exactly when that key is an own key of [obj] and gets through, once per
    registration and with [obj[key]]; otherwise it is not called, and either
    way it stays registered. *)
Theorem setConfig_notifies (fn : Fn) (key : string) (o : Obj)
    (rs : list WaitEntry) (cs : list Value) (w : World) :
  NoDup (map fst o) ->
  tracked fn key rs cs w ->
  persistent rs = rs ->
  exists w',
    setConfig (VObj o) w = Ok (tt, w') /\
    calls fn (trace w') =
      (if has_own o key && accepts (self w) key (prop_get o key)
       then cs ++ map (fun _ => prop_get o key) rs else cs) /\
    registrations fn (waiting (self w') key) ≡ₚ rs.
Proof.
  intros Hnd Ht Hrs.
  destruct (forEach_set_lasting fn key (prop_get o) (map fst o) Hnd rs cs w Ht Hrs)
    as (w' & Hrun & _ & (Hr & _ & Hc)).
  exists w'. split; [done|]. rewrite has_own_keys. split; [done|].
  rewrite Hr. destruct (_ && _); [apply reverse_Permutation | done].
Qed.

(** ** Subscriptions and dotted keys *)

(** X15. Subscriptions look at the literal key only.  For a key that is no
    own property and that lodash splits into [a] and [b], with
    [config[a][b]] defined, [get] finds the value, and yet [onceGot] of that
    key registers a pending promise and [onGot] calls nothing at once. *)
Theorem subscriptions_ignore_paths (key a b : string) (inner : Obj)
    (v : Value) (w : World) :
  Lodash.reIsDeepProp key = true ->
  Lodash.stringToPath key = [a; b] ->
  own (config (self w)) key = None ->
  own (config (self w)) a = Some (VObj inner) ->
  own inner b = Some v ->
  defined v = true ->
  get (self w) key VUndefined = v /\
  (exists w1,
     onceGot key w = Ok (Pending (promises w), w1) /\
     waiting (self w1) key = waiting (self w) key ++ [promise_entry (promises w)]) /\
  (forall fn, exists u w1, onGot key fn w = Ok (u, w1) /\ trace w1 = trace w).
Proof.
  intros Hdeep Hpath Hk Ha Hb Hv.
  assert (defined (prop_get (config (self w)) key) = false) as Hd
    by (unfold prop_get; by rewrite Hk).
  split; [|split].
  - unfold get, Lodash.get, Lodash.baseGet, Lodash.castPath, Lodash.isKey.
    unfold has_own. rewrite Hdeep, Hk, Hpath. cbn.
    unfold prop_get. rewrite Ha. cbn. unfold prop_get. rewrite Hb.
    by rewrite Hv.
  - destruct (onceGot_undefined key w Hd) as (w1 & Hrun & _ & _ & _ & _ & Hw).
    exists w1. split; [done|]. by rewrite Hw, decide_True.
  - intros fn.
    destruct (onGot_effect key fn w) as (w1 & Hrun & _ & _ & _ & Ht & _).
    rewrite Hd, app_nil_r in Ht. by eexists _, w1.
Qed.

(** X16. [notifyGot] can be called by itself, and then resolves without any
    [set]: after an [onceGot] of an unset key, a [notifyGot] of the key calls
    the waiters stored before and then the promise's [resolve], all with what
    [get] reads for the key, and the promise's waiter is gone. *)
Theorem notifyGot_resolves_unset (key : string) (w : World) :
  defined (prop_get (config (self w)) key) = false ->
  exists w1 w2,
    onceGot key w = Ok (Pending (promises w), w1) /\
    notifyGot key w1 = Ok (tt, w2) /\
    trace w2 =
      trace w ++ fired (get (self w) key VUndefined) (waiting (self w) key)
              ++ [Call (PromiseResolve (promises w)) (get (self w) key VUndefined)] /\
    waiting (self w2) key = reverse (persistent (waiting (self w) key)) /\
    config (self w2) = config (self w).
Proof.
  intros Hd.
  destruct (onceGot_undefined key w Hd) as (w1 & Hrun & _ & Hc1 & _ & Ht1 & Hw1).
  destruct (notifyGot_effect key w1) as (w2 & Hrun2 & _ & Hc2 & _ & Ht2 & Hw2).
  exists w1, w2. split; [done|]. split; [done|].
  assert (get (self w1) key VUndefined = get (self w) key VUndefined) as Hget
    by (unfold get; by rewrite Hc1).
  split; [|split].
  - rewrite Ht2, Ht1, Hget, Hw1, decide_True by done.
    unfold fired. by rewrite map_app.
  - rewrite Hw2, decide_True, Hw1, decide_True by done.
    unfold persistent. rewrite filter_app. cbn. by rewrite app_nil_r.
  - by rewrite Hc2.
Qed.

End Store.

Lemma get_agrees_with_has_witness :
  get (H := Lodash.dotted) (self Samples.store) "a" VNull = VObj [("b", VNum 1)] /\
  get (H := Lodash.dotted) (self Samples.store) "z" VNull = VNull.
Proof.
  split.
  - exact (proj1 (get_agrees_with_has (H := Lodash.dotted)
                    (self Samples.store) "a" VNull) eq_refl).
  - exact (proj2 (get_agrees_with_has (H := Lodash.dotted)
                    (self Samples.store) "z" VNull) eq_refl eq_refl).
Defined.

Lemma set_then_read_witness :
  exists w',
    set (H := Lodash.dotted) "y" (VNum 4) Samples.store = Ok (tt, w') /\
    get (H := Lodash.dotted) (self w') "y" VNull = VNum 4 /\
    has (self w') "a" = true /\
    trace w' = [].
Proof.
  destruct (set_then_read (H := Lodash.dotted) "y" (VNum 4) Samples.store eq_refl)
    as (w' & Hrun & Hget & _ & Hframe & _ & Hquiet).
  exists w'. split; [exact Hrun|]. split; [exact (Hget VNull)|].
  split; [|exact (proj1 (Hquiet eq_refl))].
  rewrite Hframe; [reflexivity | discriminate].
Defined.

(** A store that is not strict, with the validator that turns ["x"] down. *)
Lemma set_non_strict_witness :
  exists w',
    set (H := Lodash.dotted) "x" (VNum 1)
      {| self := {| strictMode := false; setterValidator := Samples.no_x;
                    config := []; waits := ∅ |};
         trace := []; promises := 0 |} = Ok (tt, w') /\
    config (self w') = [("x", VNum 1)].
Proof.
  destruct (set_non_strict (H := Lodash.dotted) "x" (VNum 1)
              {| self := {| strictMode := false; setterValidator := Samples.no_x;
                            config := []; waits := ∅ |};
                 trace := []; promises := 0 |} eq_refl)
    as (w' & Hrun & Hcfg & _).
  exists w'. split; [exact Hrun | exact Hcfg].
Defined.

Lemma new_store_witness :
  exists c,
    new (Some [("a", VNum 1)])
      (Some {| opt_strictMode := None;
               opt_setterValidator := Some (NotFunction (VNum 0)) |}) = Ok c /\
    strictMode c = true /\
    accepts c "x" (VNum 1) = true.
Proof.
  destruct (new_store [("a", VNum 1)]
              (Some {| opt_strictMode := None;
                       opt_setterValidator := Some (NotFunction (VNum 0)) |}))
    as [_ Hok].
  destruct (Hok eq_refl) as (c & Hrun & _ & _ & Hstrict & Hall).
  exists c. split; [exact Hrun|]. split; [exact Hstrict | exact (Hall "x" (VNum 1))].
Defined.

Lemma waits_stay_tidy_witness :
  exists w',
    delWait "k" (UserFn 1) Samples.store1 = Ok (tt, w') /\
    waits (self w') !! "k" = None.
Proof.
  assert (tidy (self Samples.store1)) as Htidy.
  { intros k. cbn. destruct (decide (k = "k")) as [->|Hne].
    - rewrite lookup_singleton_eq. discriminate.
    - rewrite lookup_singleton_ne by done. discriminate. }
  destruct (proj2 (waits_stay_tidy (H := Lodash.dotted)) Samples.store1 Htidy)
    as (_ & _ & Hdel & _).
  destruct (Hdel "k" (UserFn 1)) as (w' & Hrun & _ & Hgone).
  exists w'. split; [exact Hrun | exact (Hgone eq_refl)].
Defined.

Lemma notifyGot_twice_witness :
  exists w',
    (notifyGot (H := Lodash.dotted) "k";; notifyGot (H := Lodash.dotted) "k")
      Samples.store12 = Ok (tt, w') /\
    trace w' = [ Call (UserFn 1) VUndefined; Call (UserFn 2) VUndefined;
                 Call (UserFn 1) VUndefined ].
Proof.
  destruct (notifyGot_twice (H := Lodash.dotted) "k"
              [ {| once := false; resolve := UserFn 1 |};
                {| once := true; resolve := UserFn 2 |} ] Samples.store12 eq_refl)
    as (w' & Hrun & Htr & _).
  exists w'. split; [exact Hrun | exact Htr].
Defined.

Lemma onceGot_twice_witness :
  exists (p1 p2 : nat) (w' : World),
    (a ← onceGot "k"; b ← onceGot "k";
     set (H := Lodash.dotted) "k" (VNum 5);; mret (a, b)) Samples.store =
      Ok ((Pending p1, Pending p2), w') /\
    p1 <> p2 /\
    trace w' = [Call (PromiseResolve p1) (VNum 5); Call (PromiseResolve p2) (VNum 5)].
Proof.
  destruct (onceGot_twice (H := Lodash.dotted) "k" (VNum 5) Samples.store
              eq_refl eq_refl) as (p1 & p2 & w' & Hrun & Hne & Htr & _).
  exists p1, p2, w'. split; [exact Hrun|]. split; [exact Hne | exact Htr].
Defined.

Lemma set_then_subscribe_witness :
  exists w1,
    set (H := Lodash.dotted) "k" (VNum 5) Samples.store = Ok (tt, w1) /\
    onceGot "k" w1 = Ok (Resolved (VNum 5), w1).
Proof.
  destruct (set_then_subscribe (H := Lodash.dotted) "k" (VNum 5) Samples.store
              eq_refl) as (w1 & Hrun & Hdef & _).
  exists w1. split; [exact Hrun | exact (proj1 (Hdef eq_refl))].
Defined.

Lemma unsubscribe_cancels_all_witness :
  exists (u1 u2 : M unit) (w1 w2 w3 w4 : World),
    onGot "k" 7 Samples.store = Ok (u1, w1) /\
    onGot "k" 7 w1 = Ok (u2, w2) /\
    u1 w2 = Ok (tt, w3) /\
    set (H := Lodash.dotted) "k" (VNum 5) w3 = Ok (tt, w4) /\
    calls (UserFn 7) (trace w4) = calls (UserFn 7) (trace w3).
Proof.
  destruct (unsubscribe_cancels_all (H := Lodash.dotted) "k" 7 Samples.store)
    as (u1 & u2 & w1 & w2 & w3 & Hrun1 & Hrun2 & _ & Hrun3 & _ & Hquiet).
  destruct (Hquiet (VNum 5) eq_refl) as (w4 & Hset & Hcalls).
  exists u1, u2, w1, w2, w3, w4.
  split; [exact Hrun1|]. split; [exact Hrun2|]. split; [exact Hrun3|].
  split; [exact Hset | exact Hcalls].
Defined.

Lemma setConfig_notifies_witness :
  exists w',
    setConfig (H := Lodash.dotted) (VObj [("x", VNum 1); ("k", VNum 2)])
      Samples.store1 = Ok (tt, w') /\
    calls (UserFn 1) (trace w') = [VNum 2].
Proof.
  assert (NoDup (map fst [("x", VNum 1); ("k", VNum 2)])) as Hnd.
  { apply NoDup_cons_2; [|apply NoDup_singleton].
    intros Hin%list_elem_of_singleton. discriminate Hin. }
  assert (tracked (UserFn 1) "k" [{| once := false; resolve := UserFn 1 |}] []
            Samples.store1) as Ht.
  { split; [reflexivity|]. split; [|reflexivity].
    intros k' Hne. unfold waiting. cbn.
    rewrite lookup_singleton_ne by (intros E; by apply Hne). reflexivity. }
  destruct (setConfig_notifies (H := Lodash.dotted) (UserFn 1) "k"
              [("x", VNum 1); ("k", VNum 2)] _ _ Samples.store1 Hnd Ht eq_refl)
    as (w' & Hrun & Hcalls & _).
  exists w'. split; [exact Hrun | exact Hcalls].
Defined.

Lemma subscriptions_ignore_paths_witness :
  get (H := Lodash.dotted) (self Samples.store) "a.b" VUndefined = VNum 1 /\
  exists w1, onceGot "a.b" Samples.store = Ok (Pending 0, w1).
Proof.
  destruct (subscriptions_ignore_paths (H := Lodash.dotted) "a.b" "a" "b"
              [("b", VNum 1)] (VNum 1) Samples.store
              eq_refl eq_refl eq_refl eq_refl eq_refl eq_refl)
    as (Hget & (w1 & Hrun & _) & _).
  split; [exact Hget|]. exists w1. exact Hrun.
Defined.

Lemma notifyGot_resolves_unset_witness :
  exists w1 w2,
    onceGot "a.b" Samples.store = Ok (Pending 0, w1) /\
    notifyGot (H := Lodash.dotted) "a.b" w1 = Ok (tt, w2) /\
    trace w2 = [Call (PromiseResolve 0) (VNum 1)].
Proof.
  destruct (notifyGot_resolves_unset (H := Lodash.dotted) "a.b" Samples.store
              eq_refl) as (w1 & w2 & Hrun1 & Hrun2 & Htr & _).
  exists w1, w2. split; [exact Hrun1|]. split; [exact Hrun2 | exact Htr].
Defined.

End StoreFacts.

(** * More on the renderer bootstrap *)

Module BootstrapFacts.
Import Renderer RendererFacts.

(** X12. [createRenderer] with a function returns, and until the function
    it returns is called nothing happens: no event, no job, the phase still
    Uninitialized.  Called with options, that function runs [main] and then
    [getApp]: the adapter is called once, the events are those of [main] in
    their order, and one application object is delivered, built from the
    options and the adapter's render object. *)
Theorem createRenderer_bootstraps (f : RenderAdapter) (options : AppOptions) :
  exists (st0 : State) (boot : AppOptions -> State -> State),
    createRenderer (IsFunction f) = Ok (st0, boot) /\
    (trace st0 = [] /\ phase st0 = Uninitialized /\ apps st0 = [] /\
     step st0 = None) /\
    trace (run 10 (boot options st0)) = main_events options f /\
    length (filter (fun e => is_adapter_call e = true)
              (trace (run 10 (boot options st0)))) = 1 /\
    apps (run 10 (boot options st0)) = [application (bootstrapped options f)] /\
    step (run 10 (boot options st0)) = None.
Proof.
  exists constructor, (bootstrap f). split; [done|]. split; [done|].
  destruct options as [sch [m0|] pl cr pk]; vm_compute; by repeat split.
Qed.

(** X13. [getApp] may be called before [main]: it then waits through the
    whole bootstrap.  No application object is delivered while the run of
    [main] lasts; the one delivered at the end carries the options and the
    adapter's render object, as if [getApp] had been called afterwards; and
    two early calls get two objects with the same fields. *)
Theorem getApp_before_main (f : RenderAdapter) (options : AppOptions) :
  let early := main options f (getApp constructor) in
  (forall n, n < 9 -> apps (run n early) = []) /\
  (forall n, apps (run n early) <> [] ->
             phase (run n early) = AfterInitPackageLoad /\
             renderObject (main_ (run n early)) = f renderContext) /\
  apps (run 9 early) = [application (bootstrapped options f)] /\
  step (run 9 early) = None /\
  apps (run 10 (main options f (getApp (getApp constructor)))) =
    [application (bootstrapped options f); application (bootstrapped options f)].
Proof.
  intros early.
  assert (forall n, 9 <= n -> run n early = run 9 early) as Hlate.
  { intros n Hn. replace n with (9 + (n - 9)) by lia.
    generalize (n - 9). intros m. subst early.
    destruct options as [sch [m0|] pl cr pk]; destruct m; vm_compute; reflexivity. }
  assert (forall n, n < 9 -> apps (run n early) = []) as Hearly.
  { intros n Hn. subst early. destruct options as [sch [m0|] pl cr pk];
      do 9 (destruct n as [|n]; [vm_compute; reflexivity|]); lia. }
  split; [done|]. split; [|split; [|split]].
  - intros n Hn. destruct (decide (9 <= n)) as [Hle|Hlt].
    + rewrite Hlate by done. subst early.
      destruct options as [sch [m0|] pl cr pk]; vm_compute; by split.
    + destruct Hn. apply Hearly. lia.
  - subst early. destruct options as [sch [m0|] pl cr pk]; vm_compute; reflexivity.
  - subst early. destruct options as [sch [m0|] pl cr pk]; vm_compute; reflexivity.
  - destruct options as [sch [m0|] pl cr pk]; vm_compute; reflexivity.
Qed.

(** ** The fields of the application object *)

Lemma prop_set_keys {A} (o : list (string * A)) (k : string) (v : A) :
  map fst (prop_set o k v) =
    if has_own o k then map fst o else map fst o ++ [k].
Proof.
  unfold has_own. induction o as [|[k' v'] o IH]; cbn; [done|].
  destruct (String.eqb k' k) eqn:E; cbn; [done|].
  rewrite IH. by destruct (own o k).
Qed.

Lemma prop_set_NoDup {A} (o : list (string * A)) (k : string) (v : A) :
  NoDup (map fst o) -> NoDup (map fst (prop_set o k v)).
Proof.
  intros Hnd. rewrite prop_set_keys.
  destruct (has_own o k) eqn:Hk; [done|].
  apply NoDup_app. split; [done|]. split; [|apply NoDup_singleton].
  intros x Hx Hin%list_elem_of_singleton. subst x.
  rewrite ConfigFacts.has_own_keys in Hk. by apply bool_decide_eq_false_1 in Hk.
Qed.

(** X14. The application object is a proper object, each field held once,
    whatever the render object brings.  Its fields are [use], the fields of
    the render object, and [__options], [mode], [schema] and
    [packageManager]: nothing else, and none of the other service handles of
    the render context.  [__options] holds the options [main] was called
    with, unless the render object has a field of that name. *)
Theorem application_fields (r : RendererMain) :
  NoDup (map fst (props (application r))) /\
  (forall k,
     own (props (application r)) k = None <->
     k <> "use" /\ k <> "__options" /\ k <> "mode" /\ k <> "schema" /\
     k <> "packageManager" /\ render_field (renderObject r) k = None) /\
  (render_field (renderObject r) "__options" = None ->
   own (props (application r)) "__options" = Some (AOptions (initOptions r))).
Proof.
  split; [|split].
  - unfold application, freeze, literal. cbn [props].
    generalize ([("__options", AOptions (initOptions r)); ("mode", AMode (mode r));
                 ("schema", AService SchemaService);
                 ("packageManager", AService PackageManagementService)] ++
                spread (renderObject r) ++
                [("use", AFunction (fun plugin => RegisterPlugin (One plugin)))]).
    intros l.
    assert (forall o : list (string * AppValue), NoDup (map fst o) ->
              NoDup (map fst (foldl (fun o kv => prop_set o kv.1 kv.2) o l))) as Hall.
    { induction l as [|[k v] l IH]; intros o Hnd; [done|].
      cbn [foldl]. by apply IH, prop_set_NoDup. }
    apply Hall. constructor.
  - intros k. rewrite application_own.
    destruct (String.eqb "use" k) eqn:Euse.
    { apply String.eqb_eq in Euse as <-. split; [done|]. by intros [Hne _]. }
    apply String.eqb_neq in Euse.
    destruct (render_field (renderObject r) k) as [v|].
    { split; [done|]. by intros (_ & _ & _ & _ & _ & Hnone). }
    cbn [own].
    destruct (String.eqb "packageManager" k) eqn:E1;
      [apply String.eqb_eq in E1 as <-; split; [done | by intros (_&_&_&_&Hne&_)]|].
    destruct (String.eqb "schema" k) eqn:E2;
      [apply String.eqb_eq in E2 as <-; split; [done | by intros (_&_&_&Hne&_)]|].
    destruct (String.eqb "mode" k) eqn:E3;
      [apply String.eqb_eq in E3 as <-; split; [done | by intros (_&_&Hne&_)]|].
    destruct (String.eqb "__options" k) eqn:E4;
      [apply String.eqb_eq in E4 as <-; split; [done | by intros (_&Hne&_)]|].
    apply String.eqb_neq in E1, E2, E3, E4.
    split; [|done]. intros _. by repeat split; try (intros <-).
  - intros Hnone. by rewrite application_own, Hnone.
Qed.

Lemma application_fields_witness :
  own (props (application (bootstrapped Samples.options Samples.foo_adapter)))
    "lifeCycle" = None /\
  own (props (application (bootstrapped Samples.options Samples.foo_adapter)))
    "__options" = Some (AOptions (Some Samples.options)).
Proof.
  destruct (application_fields (bootstrapped Samples.options Samples.foo_adapter))
    as (_ & Hnone & Hopts).
  split; [|exact (Hopts eq_refl)].
  apply Hnone. repeat split; discriminate.
Defined.

End BootstrapFacts.
